(** * intro-physics-i: kinematics of the three demonstration scripts

    A shallow embedding of
      - [sheet2/ex10.py]            (two descent paths: roll-then-fall, fall-then-roll),
      - [sheet2/ex10_james_bond.py] (stunt jump onto a moving boat),
      - [sheet3/ex14.py]            (three circular orbits around the Earth).

    Number model.  [ex10_james_bond.py] only adds, subtracts, multiplies,
    divides and compares binary64 numbers, so it is embedded over Rocq's
    primitive floats: the model is bit-exact and it runs.  [ex10.py] and
    [ex14.py] go through [sqrt], [sin], [cos], [pi], powers and
    [numpy.roots]; they are embedded over the real numbers, every decimal
    literal being read as the number it writes and every operation as the
    exact one.  What is stated of these two scripts over the reals is stated
    so that rounding does not decide it: orderings and bounds with a margin,
    branch selection, equalities up to a tolerance.  Where a statement turns
    on the last bit of a binary64 result (is a residual exactly 0, does a
    cube underflow), the computation is embedded a second time over
    primitive floats, in [Ex10B64] and [Ex14B64].

    Rendering (matplotlib artists) is kept only as far as the frame callback
    writes to it: the data handed to [set_data], [set_xy] and [set_text]. *)

From Stdlib Require Import Floats.
From Stdlib Require Import ZArith Arith Bool List String Lia Reals Lra.
Import ListNotations.

Set Warnings "-inexact-float".
Close Scope float_scope.

(* ================================================================== *)
(** * numpy, over the reals *)

Module NumpyR.
Local Open Scope R_scope.

(** [y[-1] = stop]: overwrite the last cell of an array. *)
Fixpoint set_last (l : list R) (v : R) : list R :=
  match l with
  | [] => []
  | [_] => [v]
  | x :: tl => x :: set_last tl v
  end.

(** [numpy.linspace(start, stop, num)] with the default [endpoint=True]:
    [div = num - 1], [step = (stop - start) / div],
    [y = arange(0, num) * step + start], and [y[-1] = stop] when [num > 1]. *)
Definition linspace (start stop : R) (num : nat) : list R :=
  let div := (num - 1)%nat in
  let step := (stop - start) / INR div in
  let y := map (fun i => INR i * step + start) (seq 0 num) in
  if (1 <? num)%nat then set_last y stop else y.

(** [numpy.roots(p)] for a coefficient list [a, b, c] of degree two whose
    roots are real: the two roots of [a*x^2 + b*x + c].  numpy returns them
    as the eigenvalues of the companion matrix, in no documented order (for
    the script's coefficients the smaller one comes first); the script only
    takes their maximum.  Other shapes of [p] do not occur in the script and
    yield the empty array here. *)
Definition roots (p : list R) : list R :=
  match p with
  | [a; b; c] =>
      let d := sqrt (b * b - 4 * a * c) in
      [(- b - d) / (2 * a); (- b + d) / (2 * a)]
  | _ => []
  end.

(** [numpy.max] of a one-dimensional array (it raises on an empty one; the
    model returns 0 there). *)
Definition np_max (l : list R) : R :=
  match l with
  | [] => 0
  | x :: tl => fold_left Rmax tl x
  end.


End NumpyR.

(* ================================================================== *)
(** * sheet2/ex10.py: two descent paths *)

Module Ex10.
Import NumpyR.
Local Open Scope R_scope.

(** Parameters *)
Definition g : R := 9.81.
Definition h : R := 2.0.
Definition l_incline : R := 3.0.
Definition angle : R := PI / 6.

(** Derived quantities *)
Definition v_final : R := sqrt (2 * g * h).

(** Path 1: small roll (A->B) then free fall (B->D) *)
Definition h_roll : R := 0.5.
Definition v_B : R := sqrt (2 * g * h_roll).
Definition t_fall1 : R := sqrt (2 * (h - h_roll) / g).
Definition a_roll : R := g * sin angle.
Definition t_roll1 : R := sqrt (2 * h_roll / a_roll).
Definition T1 : R := t_roll1 + t_fall1.

(** Path 2: free fall (A->C) then roll on the incline (C->D) *)
Definition h_free : R := 1.0.
Definition v_C : R := sqrt (2 * g * h_free).
Definition t_fall2 : R := sqrt (2 * h_free / g).
Definition a_roll2 : R := g * sin angle.
Definition s_total : R := l_incline.
Definition coeff : list R := [0.5 * a_roll2; v_C; - s_total].
Definition sol : list R := roots coeff.
Definition t_roll2 : R := np_max sol.
Definition T2 : R := t_fall2 + t_roll2.

(** Simulation timeline *)
Definition t_max : R := Rmax T1 T2.
Definition ts : list R := linspace 0 t_max 300.

(** Speeds as functions of time *)
Definition speed_path1 (t : R) : R :=
  if Rlt_dec t t_roll1 then a_roll * t
  else if Rlt_dec t T1 then
    let tau := t - t_roll1 in
    sqrt (v_B ^ 2 + (g * tau) ^ 2)
  else v_final.

Definition speed_path2 (t : R) : R :=
  if Rlt_dec t t_fall2 then g * t
  else if Rlt_dec t T2 then
    let tau := t - t_fall2 in
    v_C + a_roll2 * tau
  else v_final.

(** Position functions (simplified schematic) *)
Definition pos_path1 (t : R) : R * R :=
  if Rlt_dec t t_roll1 then
    (1.0 * t / t_roll1, - h_roll * (t / t_roll1))
  else if Rlt_dec t T1 then
    let tau := (t - t_roll1) / t_fall1 in
    (1 + 1 * tau, - h_roll - (h - h_roll) * tau)
  else (2, - h).

Definition pos_path2 (t : R) : R * R :=
  if Rlt_dec t t_fall2 then
    let tau := t / t_fall2 in
    (1.0 * tau, - h_free * tau)
  else if Rlt_dec t T2 then
    let tau := (t - t_fall2) / t_roll2 in
    (1 + 2 * tau, - h_free - (h - h_free) * tau)
  else (3, - h).

(** The formula of the second branch of each speed function, on its own:
    what [speed_path1] and [speed_path2] compute while [t] is in the second
    phase (see [speed_path1_phase2], [speed_path2_phase2] below). *)
Definition phase2_speed_path1 (t : R) : R :=
  let tau := t - t_roll1 in sqrt (v_B ^ 2 + (g * tau) ^ 2).

Definition phase2_speed_path2 (t : R) : R :=
  let tau := t - t_fall2 in v_C + a_roll2 * tau.

(** One frame of the animation: what [update(frame)] hands to the artists
    and appends to the history buffers. *)
Record display := mkDisplay {
  ball1 : list R * list R;
  ball2 : list R * list R;
  t_data : list R;
  v1_data : list R;
  v2_data : list R
}.

Definition init_display : display :=
  mkDisplay ([], []) ([], []) [] [] [].

(** [update(frame)]; [None] when [ts[frame]] is out of range. *)
Definition update (frame : nat) (d : display) : option display :=
  match nth_error ts frame with
  | None => None
  | Some t =>
      let '(x1, y1) := pos_path1 t in
      let '(x2, y2) := pos_path2 t in
      Some (mkDisplay ([x1], [y1]) ([x2], [y2])
              (t_data d ++ [t])
              (v1_data d ++ [speed_path1 t])
              (v2_data d ++ [speed_path2 t]))
  end.

(** [update] called on each frame number of [frames], in that order.  Which
    frame numbers the animation driver passes, and how often, is matplotlib's
    business and is not modelled. *)
Fixpoint play (frames : list nat) (d : display) : option display :=
  match frames with
  | [] => Some d
  | frame :: rest =>
      match update frame d with
      | Some d' => play rest d'
      | None => None
      end
  end.

End Ex10.

(* ================================================================== *)
(** * numpy, over binary64 *)

Module NumpyF.
Local Open Scope float_scope.

(** The integer [ceil(f)] of a finite binary64 number, read off its
    significand and exponent ([f = (-1)^s * m * 2^e]); 0 for an infinity or a
    NaN, on which numpy's [_arange_safe_ceil_to_intp] raises. *)
Definition ceil_to_Z (f : float) : Z :=
  match Prim2SF f with
  | S754_finite s m e =>
      let mag_floor :=
        match e with
        | Zneg p => Z.shiftr (Zpos m) (Zpos p)
        | _ => Z.shiftl (Zpos m) e
        end in
      let exact := Z.eqb (Z.shiftl mag_floor (- e)) (Zpos m) in
      if s then (- mag_floor)%Z
      else if exact then mag_floor else (mag_floor + 1)%Z
  | _ => 0%Z
  end.

Definition float_of_nat (i : nat) : float :=
  PrimFloat.of_uint63 (Uint63.of_Z (Z.of_nat i)).

(** [numpy.arange(start, stop, step)] on float64:
    [length = ceil((stop - start) / step)], cell 0 is [start], cell 1 is
    [next = start + step], and the fill loop writes
    [start + i * delta] with [delta = next - start] into every later cell. *)
Definition arange (start stop step : float) : list float :=
  let length := Z.to_nat (ceil_to_Z ((stop - start) / step)) in
  let next := start + step in
  let delta := next - start in
  map (fun i : nat =>
         match i with
         | O => start
         | S O => next
         | _ => start + float_of_nat i * delta
         end)
      (seq 0 length).

End NumpyF.

(* ================================================================== *)
(** * sheet2/ex10_james_bond.py: stunt jump onto a moving boat *)

Module JamesBond.
Import NumpyF.
Local Open Scope float_scope.

(** Parameters *)
Definition g : float := 9.81.

Definition stage_height : float := 4.0.
Definition x0_bond : float := 0.0.
Definition y0_bond : float := stage_height.

Definition boat_length : float := 5.0.
Definition boat_height : float := 0.5.
Definition boat_x0 : float := 10.0.
Definition boat_speed : float := 30 / 3.6.

Definition dt : float := 0.02.
Definition T_max : float := 2.0.

(** [bond_trajectory(v0_kmh)]: the arrays [t], [x(t)], [y(t)]. *)
Definition bond_trajectory (v0_kmh : float)
  : list float * list float * list float :=
  let v0_ms := v0_kmh / 3.6 in
  let vx := v0_ms in
  let vy := 0 in
  let t := arange 0 T_max dt in
  let x := map (fun ti => x0_bond + vx * ti) t in
  let y := map (fun ti => y0_bond + vy * ti - 0.5 * g * (ti * ti)) t in
  (t, x, y).

(** [boat_position(t)]: [x_left, x_right, y_bottom, y_top]. *)
Definition boat_position (t : float) : float * float * float * float :=
  let x_left := boat_x0 + boat_speed * t in
  let x_right := x_left + boat_length in
  (x_left, x_right, 0, boat_height).

(** What the frame callback writes: the data of the three artists, the
    status text, and the flag [stopped["done"]]. *)
Record display := mkDisplay {
  bond_dot : list float * list float;
  traj_line : list float * list float;
  boat_patch : float * float;
  status_text : string;
  done : bool
}.

Definition msg_landed : string := "Success! 007 landed on the boat."%string.
Definition msg_missed : string := "Missed! 007 fell into the water."%string.

(** The artists as [animate_jump] creates them and [init] resets them, with
    [stopped = {"done": False}]. *)
Definition init : display :=
  mkDisplay ([], []) ([], []) (boat_x0, 0) EmptyString false.

Section Closure.
(** The arrays [update] closes over. *)
Variables t_vals x_vals y_vals : list float.

(** [update(frame)]; [None] stands for the [IndexError] of an index past
    the arrays, which is raised before any artist is touched. *)
Definition update (frame : nat) (d : display) : option display :=
  if done d then Some d
  else
    match nth_error t_vals frame,
          nth_error x_vals frame,
          nth_error y_vals frame with
    | Some t, Some x, Some y =>
        let bond_dot' := ([x], [y]) in
        let traj_line' := (firstn frame x_vals, firstn frame y_vals) in
        let '(x_left, x_right, _, top) := boat_position t in
        let boat_patch' := (x_left, 0) in
        if ((x_left <=? x) && (x <=? x_right)) && ((0 <=? y) && (y <=? top))
        then Some (mkDisplay bond_dot' traj_line' boat_patch' msg_landed true)
        else if y <=? 0
        then Some (mkDisplay bond_dot' traj_line' boat_patch' msg_missed true)
        else Some (mkDisplay bond_dot' traj_line' boat_patch'
                     (status_text d) (done d))
    | _, _, _ => None
    end.

(** The animation driver: [update] on each frame of [frames], in order. *)
Fixpoint play (frames : list nat) (d : display) : option display :=
  match frames with
  | [] => Some d
  | frame :: rest =>
      match update frame d with
      | Some d' => play rest d'
      | None => None
      end
  end.
End Closure.

(** The display after the first [k] frames of [animate_jump(v0_kmh)]. *)
Definition after_frames (v0_kmh : float) (k : nat) : option display :=
  let '(t_vals, x_vals, y_vals) := bond_trajectory v0_kmh in
  play t_vals x_vals y_vals (seq 0 k) init.

(** [animate_jump(v0_kmh)]: [FuncAnimation] with [frames=len(t_vals)],
    [repeat=False]; the display once every frame has been played. *)
Definition animate_jump (v0_kmh : float) : option display :=
  let '(t_vals, x_vals, y_vals) := bond_trajectory v0_kmh in
  play t_vals x_vals y_vals (seq 0 (List.length t_vals)) init.

(** The two stop conditions of [update], named. *)
Definition in_span (t x : float) : bool :=
  let '(x_left, x_right, _, _) := boat_position t in
  (x_left <=? x) && (x <=? x_right).

Definition on_boat (t x y : float) : bool :=
  let '(x_left, x_right, _, top) := boat_position t in
  ((x_left <=? x) && (x <=? x_right)) && ((0 <=? y) && (y <=? top)).

Definition in_water (y : float) : bool := y <=? 0.

Definition box_y (y : float) : bool := (0 <=? y) && (y <=? boat_height).

(** The sample of frame [k]: [t_vals[k], x_vals[k], y_vals[k]]. *)
Definition frame_sample (t_vals x_vals y_vals : list float) (k : nat)
  : option (float * float * float) :=
  match nth_error t_vals k, nth_error x_vals k, nth_error y_vals k with
  | Some t, Some x, Some y => Some (t, x, y)
  | _, _, _ => None
  end.

Definition sample (v0_kmh : float) (k : nat) : option (float * float * float) :=
  let '(t_vals, x_vals, y_vals) := bond_trajectory v0_kmh in
  frame_sample t_vals x_vals y_vals k.

Definition on_boat_at (v0_kmh : float) (k : nat) : bool :=
  match sample v0_kmh k with
  | Some (t, x, y) => on_boat t x y
  | None => false
  end.

Definition in_span_at (v0_kmh : float) (k : nat) : bool :=
  match sample v0_kmh k with
  | Some (t, x, _) => in_span t x
  | None => false
  end.

(** Index of the first cell of [l] that satisfies [p]. *)
Fixpoint first_index (p : float -> bool) (l : list float) : option nat :=
  match l with
  | [] => None
  | y :: tl =>
      if p y then Some O
      else match first_index p tl with
           | Some k => Some (S k)
           | None => None
           end
  end.

(** The outcome the animation shows at its end. *)
Definition landed (v0_kmh : float) : bool :=
  match animate_jump v0_kmh with
  | Some d => String.eqb (status_text d) msg_landed
  | None => false
  end.

Definition missed (v0_kmh : float) : bool :=
  match animate_jump v0_kmh with
  | Some d => String.eqb (status_text d) msg_missed
  | None => false
  end.

(** Frame [k] is the one that resolves the jump, with the text [msg]: the
    flag is still off after the frames before [k] and on after frame [k]. *)
Definition classified_at (v0_kmh : float) (k : nat) (msg : string) : Prop :=
  exists d d',
    after_frames v0_kmh k = Some d /\ done d = false /\
    after_frames v0_kmh (S k) = Some d' /\ done d' = true /\
    status_text d' = msg.

(** The landing rule in the words of the specification: take the first
    sampled frame whose height is at most the boat's; the jump lands exactly
    when Bond is within the boat's horizontal span at that frame. *)
Definition spec_landed (v0_kmh : float) : bool :=
  let '(_, _, y_vals) := bond_trajectory v0_kmh in
  match first_index (fun y => y <=? boat_height) y_vals with
  | Some k => in_span_at v0_kmh k
  | None => false
  end.

(** The time grid of the jump (it does not depend on the speed), the cell
    formulas of [bond_trajectory] on one instant, and the comparisons of a
    grid of binary64 instants. *)
Definition t_grid : list float := arange 0 T_max dt.

Definition x_at (v0_kmh t : float) : float := x0_bond + v0_kmh / 3.6 * t.
Definition y_at (t : float) : float := y0_bond + 0 * t - 0.5 * g * (t * t).

(** Where the falling height stands against the boat and the water at frame
    [k] of the grid: above the boat before frame 43, inside [0, boat_height]
    at frames 43 to 45, below the water line from frame 46 on. *)
Definition height_class (k : nat) : bool * bool :=
  if (k <? 43)%nat then (false, false)
  else if (k <? 46)%nat then (true, false)
  else (false, true).

Definition height_class_ok (k : nat) : bool :=
  match nth_error t_grid k with
  | Some t =>
      Bool.eqb (box_y (y_at t)) (fst (height_class k))
      && Bool.eqb (in_water (y_at t)) (snd (height_class k))
  | None => false
  end.




End JamesBond.

(* ================================================================== *)
(** * sheet3/ex14.py: three circular orbits *)

Module Ex14.
Import NumpyR.
Local Open Scope R_scope.

(** Physical constants *)
Definition G : R := 6.67430e-11.
Definition M_earth : R := 5.972e24.
Definition GM : R := G * M_earth.
Definition R_earth_real : R := 6.371e6.
Definition T_earth : R := 24 * 3600.

(** Geostationary orbit.  The script binds the name [T_geo] twice: first to
    [T_earth] (here [T_geo_0]), later to [orbital_period(r_geo_real)]. *)
Definition T_geo_0 : R := T_earth.
Definition r_geo_real : R := Rpower (GM * (T_geo_0 / (2 * PI)) ^ 2) (1 / 3).

(** The three orbits *)
Definition r_close_real : R := Rpower 4 (-1 / 3) * r_geo_real.
Definition r_far_real : R := Rpower 4 (1 / 3) * r_geo_real.

(** Periods from physics *)
Definition orbital_period (r : R) : R := 2 * PI * sqrt (r ^ 3 / GM).

Definition T_close : R := orbital_period r_close_real.
Definition T_geo : R := orbital_period r_geo_real.
Definition T_far : R := orbital_period r_far_real.

(** Scaling for plotting *)
Definition R_earth : R := 5.0.
Definition scale : R := R_earth / R_earth_real.

Definition r_close : R := r_close_real * scale.
Definition r_geo : R := r_geo_real * scale.
Definition r_far : R := r_far_real * scale.

(** Time setup *)
Definition frames : nat := 500.
Definition sim_time : R := 3 * T_earth.
Definition times : list R := linspace 0 sim_time frames.

(** Position functions *)
Definition sat_pos (r T t : R) : R * R :=
  let theta := 2 * PI * t / T in
  (r * cos theta, r * sin theta).

Definition earth_marker (t : R) : R * R :=
  let theta := 2 * PI * t / T_earth in
  (R_earth * cos theta, R_earth * sin theta).

(** What [update(frame)] hands to the four artists. *)
Record display := mkDisplay {
  sat_close : list R * list R;
  sat_geo : list R * list R;
  sat_far : list R * list R;
  marker : list R * list R
}.

(** [update(frame)]; [None] when [times[frame]] is out of range. *)
Definition update (frame : nat) : option display :=
  match nth_error times frame with
  | None => None
  | Some t =>
      let '(x1, y1) := sat_pos r_close T_close t in
      let '(x2, y2) := sat_pos r_geo T_geo t in
      let '(x3, y3) := sat_pos r_far T_far t in
      let '(xm, ym) := earth_marker t in
      Some (mkDisplay ([x1], [y1]) ([x2], [y2]) ([x3], [y3]) ([xm], [ym]))
  end.

End Ex14.

(* ================================================================== *)
(** * sheet2/ex10.py, lines 6-42, over binary64 *)

(** The inversion of the incline length of path 2, on binary64 numbers as the
    script computes it.  [PrimFloat.sqrt] is the correctly rounded square
    root, as [numpy.sqrt] is.  Two calls leave the arithmetic of the script:
    [np.sin(angle)], taken by its value, and [np.roots], taken by the
    quadratic formula. *)
Module Ex10B64.
Local Open Scope float_scope.

(** [np.pi]: the double nearest to pi. *)
Definition np_pi : float := 3.141592653589793.

Definition g : float := 9.81.
Definition l_incline : float := 3.0.
Definition angle : float := np_pi / 6.

(** [np.sin(angle)].  [angle] is the double 0.5235987755982988, just below
    pi/6; its sine is 0.4999999999999999377..., and the double nearest to
    that is the one below 0.5. *)
Definition sin_angle : float := 0.49999999999999994.

Definition h_free : float := 1.0.
Definition v_C : float := PrimFloat.sqrt (2 * g * h_free).

Definition a_roll2 : float := g * sin_angle.
Definition s_total : float := l_incline.
Definition coeff : list float := [0.5 * a_roll2; v_C; - s_total].

(** [numpy.roots(p)] for a coefficient list [a, b, c]: numpy takes the
    eigenvalues of the companion matrix; the model evaluates the quadratic
    formula in binary64, smaller root first. *)
Definition roots (p : list float) : list float :=
  match p with
  | [a; b; c] =>
      let d := PrimFloat.sqrt (b * b - 4 * a * c) in
      [(- b - d) / (2 * a); (- b + d) / (2 * a)]
  | _ => []
  end.

(** [numpy.max] of a one-dimensional array of numbers (none of them a
    NaN). *)
Definition np_max (l : list float) : float :=
  match l with
  | [] => nan
  | x :: tl => fold_left (fun m y => if m <? y then y else m) tl x
  end.

Definition sol : list float := roots coeff.
Definition t_roll2 : float := np_max sol.

(** The left-hand side of the equation [t_roll2] is to solve,
    [0.5 * a_roll2 * t**2 + v_C * t - s_total], evaluated in binary64. *)
Definition quadratic (t : float) : float :=
  0.5 * a_roll2 * (t * t) + v_C * t - s_total.

End Ex10B64.

(* ================================================================== *)
(** * sheet3/ex14.py, [orbital_period], over binary64 *)

Module Ex14B64.
Local Open Scope float_scope.

Definition np_pi : float := 3.141592653589793.

Definition G : float := 6.67430e-11.
Definition M_earth : float := 5.972e24.
Definition GM : float := G * M_earth.

(** [r ** 3].  Python hands it to C's [pow]; the model multiplies twice.  The
    two can differ in the last place of a result, and they agree where the
    facts below use them: on a radius whose cube is below the least positive
    double, both give 0. *)
Definition pow3 (r : float) : float := r * r * r.

Definition orbital_period (r : float) : float :=
  2 * np_pi * PrimFloat.sqrt (pow3 r / GM).

End Ex14B64.

(* ================================================================== *)
(** * Facts: linspace *)

Module NumpyRFacts.
Import NumpyR.
Local Open Scope R_scope.

Lemma set_last_length (l : list R) (v : R) :
  List.length (set_last l v) = List.length l.
Proof.
  induction l as [|x [|y tl] IH]; simpl in *; auto.
Qed.

Lemma nth_set_last (l : list R) (v d : R) :
  forall i, (i < List.length l)%nat ->
  nth i (set_last l v) d
  = if (S i =? List.length l)%nat then v else nth i l d.
Proof.
  induction l as [|x [|y tl] IH]; intros i Hi.
  - simpl in Hi. lia.
  - simpl in Hi. assert (i = 0%nat) by lia. subst i. reflexivity.
  - destruct i as [|i].
    + reflexivity.
    + change (set_last (x :: y :: tl) v) with (x :: set_last (y :: tl) v).
      change (nth (S i) (x :: set_last (y :: tl) v) d)
        with (nth i (set_last (y :: tl) v) d).
      rewrite IH by (simpl in *; lia). reflexivity.
Qed.

Lemma nth_map_seq (f : nat -> R) (n i : nat) (d : R) :
  (i < n)%nat -> nth i (map f (seq 0 n)) d = f i.
Proof.
  intro Hi.
  rewrite (nth_indep _ d (f 0%nat)) by (rewrite length_map, length_seq; exact Hi).
  rewrite (map_nth f). rewrite seq_nth by exact Hi. reflexivity.
Qed.

Lemma linspace_length (a b : R) (n : nat) :
  List.length (linspace a b n) = n.
Proof.
  unfold linspace. destruct (1 <? n)%nat.
  - rewrite set_last_length, length_map, length_seq. reflexivity.
  - rewrite length_map, length_seq. reflexivity.
Qed.

(** With at least two samples, sample [i] is [a + i (b - a) / (n - 1)];
    this also holds of the last one, which is stored as [b] itself. *)
Lemma linspace_nth (a b : R) (n i : nat) :
  (2 <= n)%nat -> (i < n)%nat ->
  nth i (linspace a b n) 0 = a + INR i * ((b - a) / INR (n - 1)).
Proof.
  intros Hn Hi. unfold linspace.
  assert (Hlt : (1 <? n)%nat = true) by (apply Nat.ltb_lt; lia).
  rewrite Hlt.
  rewrite nth_set_last by (rewrite length_map, length_seq; exact Hi).
  rewrite length_map, length_seq.
  destruct (Nat.eqb_spec (S i) n) as [He|He].
  - replace (n - 1)%nat with i by lia.
    assert (INR i <> 0) by (apply not_0_INR; lia).
    field. assumption.
  - rewrite nth_map_seq by exact Hi. ring.
Qed.


Lemma linspace_first (a b : R) (n : nat) :
  (2 <= n)%nat -> nth 0 (linspace a b n) 0 = a.
Proof.
  intro Hn. rewrite linspace_nth by lia. simpl. ring.
Qed.

Lemma linspace_last (a b : R) (n : nat) :
  (2 <= n)%nat -> nth (n - 1) (linspace a b n) 0 = b.
Proof.
  intro Hn. rewrite linspace_nth by lia.
  assert (INR (n - 1) <> 0) by (apply not_0_INR; lia).
  field. assumption.
Qed.

Lemma last_is_nth (l : list R) (d : R) :
  last l d = nth (List.length l - 1) l d.
Proof.
  induction l as [|x [|y tl] IH]; try reflexivity.
  change (last (x :: y :: tl) d) with (last (y :: tl) d). rewrite IH.
  simpl. rewrite Nat.sub_0_r. reflexivity.
Qed.


End NumpyRFacts.

(* ================================================================== *)
(** * Facts: sheet2/ex10.py *)

Module Ex10Facts.
Import NumpyR Ex10.
Local Open Scope R_scope.

Lemma g_pos : 0 < g.
Proof. unfold g; lra. Qed.

Lemma a_roll_eq : a_roll = g / 2.
Proof. unfold a_roll, angle. rewrite sin_PI6. lra. Qed.

Lemma a_roll2_eq : a_roll2 = g / 2.
Proof. unfold a_roll2, angle. rewrite sin_PI6. lra. Qed.

Lemma v_C_pos : 0 < v_C.
Proof. unfold v_C, h_free, g. apply sqrt_lt_R0. lra. Qed.

Lemma v_C_sqr : v_C * v_C = 2 * g.
Proof.
  unfold v_C, h_free. rewrite sqrt_sqrt; [lra|]. pose proof g_pos; lra.
Qed.

Lemma t_roll1_pos : 0 < t_roll1.
Proof.
  unfold t_roll1. rewrite a_roll_eq. apply sqrt_lt_R0.
  unfold h_roll, g. lra.
Qed.

Lemma t_fall1_pos : 0 < t_fall1.
Proof. unfold t_fall1, h, h_roll, g. apply sqrt_lt_R0. lra. Qed.

Lemma t_fall2_pos : 0 < t_fall2.
Proof. unfold t_fall2, h_free, g. apply sqrt_lt_R0. lra. Qed.

(** The discriminant of the incline quadratic is [5 g]. *)
Lemma discriminant_eq :
  v_C * v_C - 4 * (0.5 * a_roll2) * (- s_total) = 5 * g.
Proof.
  rewrite v_C_sqr, a_roll2_eq. unfold s_total, l_incline. lra.
Qed.

Lemma sqrt_5g_gt_v_C : v_C < sqrt (5 * g).
Proof.
  unfold v_C, h_free. apply sqrt_lt_1; pose proof g_pos; lra.
Qed.

Lemma sol_eq :
  sol = [(- v_C - sqrt (5 * g)) / (2 * (0.5 * a_roll2));
         (- v_C + sqrt (5 * g)) / (2 * (0.5 * a_roll2))].
Proof.
  unfold sol, coeff, roots. rewrite discriminant_eq. reflexivity.
Qed.

Lemma t_roll2_eq : t_roll2 = (sqrt (5 * g) - v_C) / (g / 2).
Proof.
  unfold t_roll2. rewrite sol_eq. unfold np_max. simpl.
  rewrite a_roll2_eq.
  pose proof g_pos. pose proof sqrt_5g_gt_v_C. pose proof v_C_pos.
  replace (2 * (0.5 * (g / 2))) with (g / 2) by lra.
  rewrite Rmax_right.
  - unfold Rdiv. ring.
  - apply Rmult_le_compat_r.
    + apply Rlt_le, Rinv_0_lt_compat. lra.
    + lra.
Qed.

Lemma t_roll2_pos : 0 < t_roll2.
Proof.
  rewrite t_roll2_eq. pose proof g_pos. pose proof sqrt_5g_gt_v_C.
  apply Rdiv_lt_0_compat; lra.
Qed.

Lemma t_roll1_lt_T1 : t_roll1 < T1.
Proof. unfold T1. pose proof t_fall1_pos. lra. Qed.

Lemma t_fall2_lt_T2 : t_fall2 < T2.
Proof. unfold T2. pose proof t_roll2_pos. lra. Qed.

Lemma t_fall1_sqr : t_fall1 * t_fall1 = 3 / g.
Proof.
  unfold t_fall1, h, h_roll. pose proof g_pos.
  rewrite sqrt_sqrt.
  - unfold Rdiv. lra.
  - apply Rlt_le, Rdiv_lt_0_compat; lra.
Qed.

Lemma v_B_sqr : v_B * v_B = g.
Proof.
  unfold v_B, h_roll. pose proof g_pos. rewrite sqrt_sqrt; lra.
Qed.

Lemma v_B_pos : 0 < v_B.
Proof. unfold v_B, h_roll, g. apply sqrt_lt_R0. lra. Qed.

(** Inside the second phase each speed function is its second-branch
    formula. *)
Lemma speed_path1_phase2 (t : R) :
  t_roll1 <= t < T1 -> speed_path1 t = phase2_speed_path1 t.
Proof.
  intros [Hlo Hhi]. unfold speed_path1, phase2_speed_path1.
  destruct (Rlt_dec t t_roll1); [lra|].
  destruct (Rlt_dec t T1); [reflexivity|lra].
Qed.

Lemma speed_path2_phase2 (t : R) :
  t_fall2 <= t < T2 -> speed_path2 t = phase2_speed_path2 t.
Proof.
  intros [Hlo Hhi]. unfold speed_path2, phase2_speed_path2.
  destruct (Rlt_dec t t_fall2); [lra|].
  destruct (Rlt_dec t T2); [reflexivity|lra].
Qed.

(** Path 1 does arrive with [v_final]. *)
Lemma phase2_speed_path1_at_T1 : phase2_speed_path1 T1 = v_final.
Proof.
  unfold phase2_speed_path1, v_final, T1, h. cbv zeta.
  f_equal.
  replace (t_roll1 + t_fall1 - t_roll1) with t_fall1 by ring.
  replace (v_B ^ 2 + (g * t_fall1) ^ 2)
    with (v_B * v_B + g * g * (t_fall1 * t_fall1)) by ring.
  rewrite v_B_sqr, t_fall1_sqr. pose proof g_pos.
  replace 2.0 with 2 by lra. field. lra.
Qed.

(** Path 2 arrives with [sqrt (5 g)]: the incline of length 3 at 30 degrees
    drops 1.5 m, on top of the 1 m of free fall. *)
Lemma phase2_speed_path2_at_T2_eq : phase2_speed_path2 T2 = sqrt (5 * g).
Proof.
  unfold phase2_speed_path2, T2. cbv zeta.
  replace (t_fall2 + t_roll2 - t_fall2) with t_roll2 by ring.
  rewrite t_roll2_eq, a_roll2_eq. pose proof g_pos. field. lra.
Qed.

Lemma sqrt_5g_gt_7 : 7 < sqrt (5 * g).
Proof.
  replace 7 with (sqrt (7 * 7)) by (apply sqrt_square; lra).
  apply sqrt_lt_1; unfold g; lra.
Qed.

Lemma v_final_lt : v_final < 6.3.
Proof.
  unfold v_final, h.
  replace 6.3 with (sqrt (6.3 * 6.3)) by (apply sqrt_square; lra).
  apply sqrt_lt_1; unfold g; lra.
Qed.

Lemma v_C_lt : v_C < 4.5.
Proof.
  unfold v_C, h_free.
  replace 4.5 with (sqrt (4.5 * 4.5)) by (apply sqrt_square; lra).
  apply sqrt_lt_1; unfold g; lra.
Qed.

Lemma t_roll2_long : 0.5 < t_roll2.
Proof.
  rewrite t_roll2_eq. pose proof sqrt_5g_gt_7. pose proof v_C_lt.
  assert (Hg : g = 9.81) by reflexivity.
  apply Rmult_lt_reg_r with (g / 2); [lra|].
  unfold Rdiv. rewrite Rmult_assoc, Rinv_l by lra.
  lra.
Qed.

(** C1 (the code at the failing input): the second-phase formula of
    [speed_path1] at [T1] is [v_final], but the second-phase formula of
    [speed_path2] at [T2] is [sqrt (5 g)], more than 0.7 m/s above
    [v_final = sqrt (2 g h)]: path 2 does not converge to the terminal speed,
    [speed_path2] drops by that much at [T2], and during the last 0.02 s
    before [T2] it returns more than [v_final + 0.5]. *)
Theorem speed_path2_overshoots_v_final :
  phase2_speed_path1 T1 = v_final /\
  phase2_speed_path2 T2 = sqrt (5 * g) /\
  v_final = sqrt (2 * g * h) /\
  v_final + 0.7 < phase2_speed_path2 T2 /\
  phase2_speed_path2 T2 <> speed_path2 T2 /\
  (forall t, T2 - 0.02 <= t < T2 -> v_final + 0.5 < speed_path2 t).
Proof.
  pose proof sqrt_5g_gt_7. pose proof v_final_lt.
  assert (Hc : speed_path2 T2 = v_final).
  { unfold speed_path2. pose proof t_fall2_lt_T2.
    destruct (Rlt_dec T2 t_fall2); [lra|].
    destruct (Rlt_dec T2 T2); [lra|reflexivity]. }
  split; [apply phase2_speed_path1_at_T1|].
  split; [apply phase2_speed_path2_at_T2_eq|].
  split; [reflexivity|].
  split; [rewrite phase2_speed_path2_at_T2_eq; lra|].
  split; [rewrite Hc, phase2_speed_path2_at_T2_eq; lra|].
  intros t [Hlo Hhi].
  pose proof t_roll2_long as Hlong.
  rewrite speed_path2_phase2 by (unfold T2 in *; lra).
  pose proof phase2_speed_path2_at_T2_eq as Hend.
  assert (Hg : g = 9.81) by reflexivity.
  unfold phase2_speed_path2 in *. cbv zeta in *.
  rewrite a_roll2_eq in *. nra.
Qed.

(** C6: past the last phase boundary both paths are clamped to the terminal
    state, and on [t >= 0] the three guarded branches of each function cover
    every [t] without dividing by zero or taking the root of a negative
    number. *)
Theorem kinematics_clamped_and_total (t : R) :
  0 <= t ->
  (T1 <= t -> speed_path1 t = v_final /\ pos_path1 t = (2, - h)) /\
  (T2 <= t -> speed_path2 t = v_final /\ pos_path2 t = (3, - h)) /\
  (t < t_roll1 \/ t_roll1 <= t < T1 \/ T1 <= t) /\
  (t < t_fall2 \/ t_fall2 <= t < T2 \/ T2 <= t) /\
  (t_roll1 <> 0 /\ t_fall1 <> 0 /\ t_fall2 <> 0 /\ t_roll2 <> 0) /\
  0 <= v_B ^ 2 + (g * (t - t_roll1)) ^ 2.
Proof.
  intros Ht.
  pose proof t_roll1_lt_T1. pose proof t_fall2_lt_T2.
  pose proof t_roll1_pos. pose proof t_fall1_pos.
  pose proof t_fall2_pos. pose proof t_roll2_pos.
  split; [|split; [|split; [|split; [|split]]]].
  - intros Hge. unfold speed_path1, pos_path1.
    destruct (Rlt_dec t t_roll1); [lra|].
    destruct (Rlt_dec t T1); [lra|]. split; reflexivity.
  - intros Hge. unfold speed_path2, pos_path2.
    destruct (Rlt_dec t t_fall2); [lra|].
    destruct (Rlt_dec t T2); [lra|]. split; reflexivity.
  - destruct (Rlt_dec t t_roll1); [left; assumption|].
    destruct (Rlt_dec t T1); [right; left; lra| right; right; lra].
  - destruct (Rlt_dec t t_fall2); [left; assumption|].
    destruct (Rlt_dec t T2); [right; left; lra| right; right; lra].
  - repeat split; lra.
  - apply Rplus_le_le_0_compat; apply pow2_ge_0.
Qed.

Lemma kinematics_clamped_and_total_witness :
  0 <= T1 + T2 /\
  speed_path1 (T1 + T2) = v_final /\ pos_path1 (T1 + T2) = (2, - h) /\
  speed_path2 (T1 + T2) = v_final /\ pos_path2 (T1 + T2) = (3, - h).
Proof.
  assert (H1 : 0 < T1)
    by (pose proof t_roll1_lt_T1; pose proof t_roll1_pos; lra).
  assert (H2 : 0 < T2)
    by (pose proof t_fall2_lt_T2; pose proof t_fall2_pos; lra).
  assert (H0 : 0 <= T1 + T2) by lra.
  destruct (kinematics_clamped_and_total (T1 + T2) H0) as (A & B & _).
  destruct A as [A1 A2]; [lra|]. destruct B as [B1 B2]; [lra|].
  repeat split; assumption.
Defined.

(** C10: at a phase boundary the guards, being strict, select the formula
    of the phase that begins there. *)
Theorem boundary_takes_next_phase :
  speed_path1 t_roll1 = v_B /\
  speed_path1 T1 = v_final /\
  speed_path2 t_fall2 = v_C /\
  speed_path2 T2 = v_final /\
  pos_path1 t_roll1 = (1, - h_roll) /\
  pos_path2 t_fall2 = (1, - h_free).
Proof.
  pose proof t_roll1_lt_T1. pose proof t_fall2_lt_T2.
  split; [|split; [|split; [|split; [|split]]]].
  - unfold speed_path1.
    destruct (Rlt_dec t_roll1 t_roll1); [lra|].
    destruct (Rlt_dec t_roll1 T1); [|lra]. cbv zeta.
    replace (v_B ^ 2 + (g * (t_roll1 - t_roll1)) ^ 2) with (v_B * v_B) by ring.
    apply sqrt_square. pose proof v_B_pos. lra.
  - unfold speed_path1.
    destruct (Rlt_dec T1 t_roll1); [lra|].
    destruct (Rlt_dec T1 T1); [lra|reflexivity].
  - unfold speed_path2.
    destruct (Rlt_dec t_fall2 t_fall2); [lra|].
    destruct (Rlt_dec t_fall2 T2); [|lra]. cbv zeta. ring.
  - unfold speed_path2.
    destruct (Rlt_dec T2 t_fall2); [lra|].
    destruct (Rlt_dec T2 T2); [lra|reflexivity].
  - unfold pos_path1.
    destruct (Rlt_dec t_roll1 t_roll1); [lra|].
    destruct (Rlt_dec t_roll1 T1); [|lra]. cbv zeta.
    f_equal; unfold Rdiv; ring.
  - unfold pos_path2.
    destruct (Rlt_dec t_fall2 t_fall2); [lra|].
    destruct (Rlt_dec t_fall2 T2); [|lra]. cbv zeta.
    f_equal; unfold Rdiv; ring.
Qed.

End Ex10Facts.


(* ================================================================== *)
(** * Facts: sheet3/ex14.py *)

Module Ex14Facts.
Import NumpyR Ex14.
Local Open Scope R_scope.

Lemma GM_pos : 0 < GM.
Proof. unfold GM, G, M_earth. lra. Qed.

Lemma T_earth_eq : T_earth = 86400.
Proof. unfold T_earth. lra. Qed.



Lemma r_geo_real_pos : 0 < r_geo_real.
Proof. unfold r_geo_real, Rpower. apply exp_pos. Qed.

Lemma r_geo_real_cubed : r_geo_real ^ 3 = GM * (T_geo_0 / (2 * PI)) ^ 2.
Proof.
  assert (Hx : 0 < GM * (T_geo_0 / (2 * PI)) ^ 2).
  { pose proof GM_pos. pose proof PI_RGT_0.
    apply Rmult_lt_0_compat; [assumption|]. apply pow_lt.
    apply Rdiv_lt_0_compat; [unfold T_geo_0; rewrite T_earth_eq|]; lra. }
  rewrite <- Rpower_pow by apply r_geo_real_pos.
  unfold r_geo_real. rewrite Rpower_mult.
  replace (1 / 3 * INR 3) with 1 by (simpl; lra).
  apply Rpower_1. exact Hx.
Qed.

Lemma orbits_ordered : r_close_real < r_geo_real < r_far_real.
Proof.
  pose proof r_geo_real_pos as Hg.
  assert (Hlo : Rpower 4 (-1 / 3) < 1).
  { rewrite <- (Rpower_O 4) by lra. apply Rpower_lt; lra. }
  assert (Hhi : 1 < Rpower 4 (1 / 3)).
  { rewrite <- (Rpower_O 4) at 1 by lra. apply Rpower_lt; lra. }
  unfold r_close_real, r_far_real. nra.
Qed.

Lemma r_close_real_pos : 0 < r_close_real.
Proof.
  unfold r_close_real. apply Rmult_lt_0_compat.
  - unfold Rpower. apply exp_pos.
  - apply r_geo_real_pos.
Qed.


End Ex14Facts.

(* ================================================================== *)
(** * Facts: sheet2/ex10_james_bond.py *)

Module JamesBondFacts.
Import NumpyF JamesBond.
Local Open Scope float_scope.

Lemma on_boat_split (t x y : float) :
  on_boat t x y = in_span t x && box_y y.
Proof. reflexivity. Qed.

Section ClosureFacts.
Variables t_vals x_vals y_vals : list float.

Lemma update_done (frame : nat) (d : display) :
  done d = true -> update t_vals x_vals y_vals frame d = Some d.
Proof. intro Hd. unfold update. rewrite Hd. reflexivity. Qed.

Lemma play_done (frames : list nat) (d : display) :
  done d = true -> play t_vals x_vals y_vals frames d = Some d.
Proof.
  intro Hd. induction frames as [|frame rest IH]; simpl.
  - reflexivity.
  - rewrite update_done by exact Hd. exact IH.
Qed.

(** One in-flight frame, by the two stop conditions. *)
Lemma update_in_flight (frame : nat) (d : display) (t x y : float) :
  done d = false ->
  frame_sample t_vals x_vals y_vals frame = Some (t, x, y) ->
  exists d',
    update t_vals x_vals y_vals frame d = Some d' /\
    bond_dot d' = ([x], [y]) /\
    done d' = on_boat t x y || in_water y /\
    status_text d' =
      if on_boat t x y then msg_landed
      else if in_water y then msg_missed
      else status_text d.
Proof.
  intros Hd Hs. unfold frame_sample in Hs. unfold update. rewrite Hd.
  destruct (nth_error t_vals frame) as [t0|]; [|discriminate].
  destruct (nth_error x_vals frame) as [x0|]; [|discriminate].
  destruct (nth_error y_vals frame) as [y0|]; [|discriminate].
  injection Hs as -> -> ->.
  unfold on_boat, in_water, boat_position. cbv zeta iota beta.
  destruct (((boat_x0 + boat_speed * t <=? x)
             && (x <=? boat_x0 + boat_speed * t + boat_length))
            && ((0 <=? y) && (y <=? boat_height))).
  - eexists. repeat split.
  - destruct (y <=? 0).
    + eexists. repeat split.
    + eexists. repeat split; simpl; auto.
Qed.

Lemma play_app (l1 l2 : list nat) (d : display) :
  play t_vals x_vals y_vals (l1 ++ l2) d
  = match play t_vals x_vals y_vals l1 d with
    | Some d' => play t_vals x_vals y_vals l2 d'
    | None => None
    end.
Proof.
  revert d. induction l1 as [|frame rest IH]; intro d; simpl.
  - reflexivity.
  - destruct (update t_vals x_vals y_vals frame d); [apply IH|reflexivity].
Qed.

(** While neither stop condition holds, the flag stays off and the text
    is not touched. *)
Lemma play_flying (k : nat) (d : display) :
  done d = false ->
  (forall j, (j < k)%nat ->
     exists t x y,
       frame_sample t_vals x_vals y_vals j = Some (t, x, y) /\
       on_boat t x y = false /\ in_water y = false) ->
  exists d',
    play t_vals x_vals y_vals (seq 0 k) d = Some d' /\
    done d' = false /\ status_text d' = status_text d.
Proof.
  intros Hd. induction k as [|k IH]; intro Hfly.
  - exists d. repeat split; assumption.
  - destruct IH as (d1 & Hp & Hd1 & Hs1); [intros j Hj; apply Hfly; lia|].
    destruct (Hfly k) as (t & x & y & Hk & Hb & Hw); [lia|].
    destruct (update_in_flight k d1 t x y Hd1 Hk) as (d2 & Hu & _ & Hd2 & Hs2).
    rewrite Hb, Hw in Hd2, Hs2. simpl in Hd2.
    exists d2. rewrite seq_S, play_app, Hp. simpl. rewrite Hu.
    repeat split; congruence.
Qed.

(** The frame that resolves the run, and the display at the end. *)
Lemma play_resolved (n k : nat) (d : display) (t x y : float) :
  (k < n)%nat ->
  done d = false ->
  (forall j, (j < k)%nat ->
     exists t x y,
       frame_sample t_vals x_vals y_vals j = Some (t, x, y) /\
       on_boat t x y = false /\ in_water y = false) ->
  frame_sample t_vals x_vals y_vals k = Some (t, x, y) ->
  on_boat t x y || in_water y = true ->
  exists d1 d2,
    play t_vals x_vals y_vals (seq 0 k) d = Some d1 /\ done d1 = false /\
    play t_vals x_vals y_vals (seq 0 (S k)) d = Some d2 /\ done d2 = true /\
    status_text d2 = (if on_boat t x y then msg_landed else msg_missed) /\
    play t_vals x_vals y_vals (seq 0 n) d = Some d2.
Proof.
  intros Hkn Hd Hfly Hk Hstop.
  destruct (play_flying k d Hd Hfly) as (d1 & Hp & Hd1 & _).
  destruct (update_in_flight k d1 t x y Hd1 Hk) as (d2 & Hu & _ & Hd2 & Hs2).
  rewrite Hstop in Hd2.
  assert (HSk : play t_vals x_vals y_vals (seq 0 (S k)) d = Some d2).
  { rewrite seq_S, play_app, Hp. simpl. rewrite Hu. reflexivity. }
  exists d1, d2. repeat split; try assumption.
  - rewrite Hs2. destruct (on_boat t x y); [reflexivity|].
    simpl in Hstop. rewrite Hstop. reflexivity.
  - replace n with (S k + (n - S k))%nat by lia.
    rewrite seq_app, play_app, HSk. apply play_done. exact Hd2.
Qed.

End ClosureFacts.

(** C4: the resolved state is absorbing.  With the flag on, [update] hands
    the display back as it is, on any frame number, and so does any further
    run of frames: the marker, the trajectory line, the boat patch, the text
    and the flag itself keep their values. *)
Theorem resolved_is_absorbing
  (t_vals x_vals y_vals : list float) (d : display) :
  done d = true ->
  (forall frame, update t_vals x_vals y_vals frame d = Some d) /\
  (forall frames, play t_vals x_vals y_vals frames d = Some d).
Proof.
  intro Hd. split.
  - intro frame. apply update_done. exact Hd.
  - intro frames. apply play_done. exact Hd.
Qed.

Lemma resolved_is_absorbing_witness :
  let d := mkDisplay ([12], [0.2]) ([], []) (10, 0) msg_landed true in
  done d = true /\
  update [0] [12] [0.2] 0 d = Some d /\
  update [0] [12] [0.2] 7 d = Some d /\
  play [0] [12] [0.2] [0; 1; 2]%nat d = Some d.
Proof.
  intro d.
  destruct (resolved_is_absorbing [0] [12] [0.2] d eq_refl) as [Hu Hp].
  split; [reflexivity|]. split; [apply Hu|]. split; [apply Hu|apply Hp].
Defined.

(** C5: a frame that is both inside the boat's box and at or below the
    water line is a landing: the first condition is tested first. *)
Theorem landed_checked_before_missed
  (t_vals x_vals y_vals : list float) (frame : nat) (d : display)
  (t x y : float) :
  done d = false ->
  frame_sample t_vals x_vals y_vals frame = Some (t, x, y) ->
  on_boat t x y = true ->
  in_water y = true ->
  exists d',
    update t_vals x_vals y_vals frame d = Some d' /\
    status_text d' = msg_landed /\ status_text d' <> msg_missed /\
    done d' = true.
Proof.
  intros Hd Hs Hb Hw.
  destruct (update_in_flight t_vals x_vals y_vals frame d t x y Hd Hs)
    as (d' & Hu & _ & Hd' & Hs').
  rewrite Hb in Hd', Hs'. exists d'. repeat split; try assumption.
  rewrite Hs'. discriminate.
Qed.

Lemma landed_checked_before_missed_witness :
  on_boat 0 12 0 = true /\ in_water 0 = true /\
  exists d',
    update [0] [12] [0] 0 init = Some d' /\
    status_text d' = msg_landed /\ status_text d' <> msg_missed /\
    done d' = true.
Proof.
  assert (Hb : on_boat 0 12 0 = true) by (vm_compute; reflexivity).
  assert (Hw : in_water 0 = true) by (vm_compute; reflexivity).
  split; [exact Hb|]. split; [exact Hw|].
  apply (landed_checked_before_missed [0] [12] [0] 0 init 0 12 0);
    [reflexivity | reflexivity | exact Hb | exact Hw].
Defined.

(** ** The script's own run *)

Lemma bond_trajectory_eq (v0 : float) :
  bond_trajectory v0 = (t_grid, map (x_at v0) t_grid, map y_at t_grid).
Proof. reflexivity. Qed.

Lemma t_grid_length : List.length t_grid = 100%nat.
Proof. vm_compute. reflexivity. Qed.

Lemma sample_eq (v0 : float) (k : nat) (t : float) :
  nth_error t_grid k = Some t ->
  sample v0 k = Some (t, x_at v0 t, y_at t).
Proof.
  intro Hk. unfold sample. rewrite bond_trajectory_eq. unfold frame_sample.
  rewrite !nth_error_map, Hk. reflexivity.
Qed.

Lemma sample_none (v0 : float) (k : nat) :
  (100 <= k)%nat -> sample v0 k = None.
Proof.
  intro Hk. unfold sample. rewrite bond_trajectory_eq. unfold frame_sample.
  assert (Hn : nth_error t_grid k = None)
    by (apply nth_error_None; rewrite t_grid_length; exact Hk).
  rewrite Hn. reflexivity.
Qed.

Lemma grid_instant (k : nat) :
  (k < 100)%nat -> exists t, nth_error t_grid k = Some t.
Proof.
  intro Hk. destruct (nth_error t_grid k) as [t|] eqn:E.
  - exists t. reflexivity.
  - apply nth_error_None in E. rewrite t_grid_length in E. lia.
Qed.

(** The heights do not depend on the speed; they are checked frame by
    frame. *)
Lemma height_classes (k : nat) (t : float) :
  nth_error t_grid k = Some t ->
  box_y (y_at t) = fst (height_class k) /\
  in_water (y_at t) = snd (height_class k).
Proof.
  intro Hk.
  assert (Hall : forallb height_class_ok (seq 0 100) = true)
    by (vm_compute; reflexivity).
  assert (Hlt : (k < 100)%nat).
  { rewrite <- t_grid_length. apply nth_error_Some. congruence. }
  rewrite forallb_forall in Hall.
  specialize (Hall k). unfold height_class_ok in Hall. rewrite Hk in Hall.
  apply andb_prop in Hall; [|apply in_seq; lia].
  destruct Hall as [H1 H2].
  split; apply Bool.eqb_prop; assumption.
Qed.

(** On the script's grid no frame is at once inside the boat's height
    range and at or below the water line: the tie of the two stop conditions
    needs a height of exactly 0, which is not sampled. *)
Lemma no_sampled_tie (k : nat) (t : float) :
  nth_error t_grid k = Some t ->
  box_y (y_at t) && in_water (y_at t) = false.
Proof.
  intro Hk. destruct (height_classes k t Hk) as [-> ->].
  unfold height_class.
  destruct (k <? 43)%nat; [reflexivity|].
  destruct (k <? 46)%nat; reflexivity.
Qed.

Lemma on_boat_at_eq (v0 : float) (k : nat) :
  on_boat_at v0 k = in_span_at v0 k && fst (height_class k).
Proof.
  unfold on_boat_at, in_span_at.
  destruct (Nat.lt_ge_cases k 100) as [Hk|Hk].
  - destruct (grid_instant k Hk) as [t Ht].
    rewrite (sample_eq v0 k t Ht), on_boat_split.
    destruct (height_classes k t Ht) as [-> _]. reflexivity.
  - rewrite sample_none by exact Hk. reflexivity.
Qed.

(** A frame of the grid on which Bond is not on the boat and above the
    water. *)
Lemma flying_frame (v0 : float) (j : nat) :
  (j < 46)%nat -> on_boat_at v0 j = false ->
  exists t x y,
    frame_sample t_grid (map (x_at v0) t_grid) (map y_at t_grid) j
      = Some (t, x, y) /\
    on_boat t x y = false /\ in_water y = false.
Proof.
  intros Hj Hb.
  destruct (grid_instant j) as [t Ht]; [lia|].
  pose proof (sample_eq v0 j t Ht) as Hs.
  unfold on_boat_at in Hb. rewrite Hs in Hb.
  unfold sample in Hs. rewrite bond_trajectory_eq in Hs.
  exists t, (x_at v0 t), (y_at t). repeat split; try assumption.
  destruct (height_classes j t Ht) as [_ ->].
  unfold height_class.
  destruct (Nat.ltb_spec j 43); [reflexivity|].
  destruct (Nat.ltb_spec j 46); [reflexivity|lia].
Qed.

Lemma on_boat_at_high (v0 : float) (j : nat) :
  (j < 43)%nat -> on_boat_at v0 j = false.
Proof.
  intro Hj. rewrite on_boat_at_eq. unfold height_class.
  destruct (Nat.ltb_spec j 43); [|lia]. apply andb_false_r.
Qed.

Lemma on_boat_at_low (v0 : float) (j : nat) :
  (46 <= j)%nat -> on_boat_at v0 j = false.
Proof.
  intro Hj. rewrite on_boat_at_eq. unfold height_class.
  destruct (Nat.ltb_spec j 43); [lia|].
  destruct (Nat.ltb_spec j 46); [lia|]. apply andb_false_r.
Qed.

Lemma first_water_frame (v0 : float) :
  first_index in_water (snd (bond_trajectory v0)) = Some 46%nat.
Proof. vm_compute. reflexivity. Qed.

(** The run is resolved by the first frame that meets a stop condition. *)
Lemma resolved_by (v0 : float) (k : nat) (b : bool) :
  (k <= 46)%nat ->
  (forall j, (j < k)%nat -> on_boat_at v0 j = false) ->
  on_boat_at v0 k = b ->
  (b = false -> k = 46%nat) ->
  classified_at v0 k (if b then msg_landed else msg_missed) /\
  landed v0 = b /\ missed v0 = negb b.
Proof.
  intros Hk Hbefore Hb Hmiss.
  destruct (grid_instant k) as [t Ht]; [lia|].
  pose proof (sample_eq v0 k t Ht) as Hs.
  assert (Hon : on_boat t (x_at v0 t) (y_at t) = b).
  { unfold on_boat_at in Hb. rewrite Hs in Hb. exact Hb. }
  assert (Hstop : on_boat t (x_at v0 t) (y_at t) || in_water (y_at t) = true).
  { rewrite Hon. destruct b; [reflexivity|].
    rewrite (Hmiss eq_refl) in Ht.
    destruct (height_classes 46 t Ht) as [_ ->]. reflexivity. }
  unfold sample in Hs. rewrite bond_trajectory_eq in Hs.
  destruct (play_resolved t_grid (map (x_at v0) t_grid) (map y_at t_grid)
              100 k init t (x_at v0 t) (y_at t))
    as (d1 & d2 & Hp1 & Hd1 & Hp2 & Hd2 & Hmsg & Hend);
    [lia | reflexivity | | exact Hs | exact Hstop |].
  { intros j Hj. apply flying_frame; [lia|]. apply Hbefore. exact Hj. }
  rewrite Hon in Hmsg.
  assert (Hrun : animate_jump v0 = Some d2).
  { unfold animate_jump. rewrite bond_trajectory_eq, t_grid_length.
    exact Hend. }
  split; [|split].
  - exists d1, d2. unfold after_frames. rewrite bond_trajectory_eq.
    repeat split; assumption.
  - unfold landed. rewrite Hrun, Hmsg. destruct b; reflexivity.
  - unfold missed. rewrite Hrun, Hmsg. destruct b; reflexivity.
Qed.

(** Every jump is resolved: at the first frame on which Bond is inside the
    boat's box, and at frame 46 when there is none. *)
Lemma jump_cases (v0 : float) :
  (exists k,
     on_boat_at v0 k = true /\
     (forall j, (j < k)%nat -> on_boat_at v0 j = false) /\
     classified_at v0 k msg_landed /\
     landed v0 = true /\ missed v0 = false)
  \/
  ((forall j, on_boat_at v0 j = false) /\
   classified_at v0 46 msg_missed /\
   landed v0 = false /\ missed v0 = true).
Proof.
  pose proof (on_boat_at_high v0) as Hhigh.
  assert (Hland : forall k, (k <= 46)%nat -> on_boat_at v0 k = true ->
            (forall j, (j < k)%nat -> on_boat_at v0 j = false) ->
            exists k,
              on_boat_at v0 k = true /\
              (forall j, (j < k)%nat -> on_boat_at v0 j = false) /\
              classified_at v0 k msg_landed /\
              landed v0 = true /\ missed v0 = false).
  { intros k Hk Hb Hbefore.
    destruct (resolved_by v0 k true Hk Hbefore Hb) as (Hc & Hl & Hm);
      [discriminate|].
    exists k. repeat split; assumption. }
  destruct (on_boat_at v0 43) eqn:E43.
  { left. apply (Hland 43%nat); [lia|exact E43|].
    intros j Hj. apply Hhigh. lia. }
  assert (H44 : forall j, (j < 44)%nat -> on_boat_at v0 j = false).
  { intros j Hj. destruct (Nat.eq_dec j 43) as [->|Hne];
      [exact E43|apply Hhigh; lia]. }
  destruct (on_boat_at v0 44) eqn:E44.
  { left. apply (Hland 44%nat); [lia|exact E44|exact H44]. }
  assert (H45 : forall j, (j < 45)%nat -> on_boat_at v0 j = false).
  { intros j Hj. destruct (Nat.eq_dec j 44) as [->|Hne];
      [exact E44|apply H44; lia]. }
  destruct (on_boat_at v0 45) eqn:E45.
  { left. apply (Hland 45%nat); [lia|exact E45|exact H45]. }
  assert (H46 : forall j, (j < 46)%nat -> on_boat_at v0 j = false).
  { intros j Hj. destruct (Nat.eq_dec j 45) as [->|Hne];
      [exact E45|apply H45; lia]. }
  right.
  assert (Hall : forall j, on_boat_at v0 j = false).
  { intro j. destruct (Nat.lt_ge_cases j 46) as [Hj|Hj];
      [apply H46; exact Hj|apply on_boat_at_low; exact Hj]. }
  destruct (resolved_by v0 46 false) as (Hc & Hl & Hm);
    [lia | exact H46 | apply Hall | reflexivity |].
  repeat split; assumption.
Qed.

(** C2, as the code decides it: the jump is a landing exactly when some
    sampled frame has Bond inside the boat's box (within the span and at a
    height in [0, boat_height] at that same frame), and it is then resolved
    at the first such frame; otherwise it is a miss, resolved at the first
    sampled frame whose height is at most 0. *)
Theorem jump_classification (v0_kmh : float) :
  (landed v0_kmh = true <-> exists k, on_boat_at v0_kmh k = true) /\
  (landed v0_kmh = true ->
   exists k,
     on_boat_at v0_kmh k = true /\
     (forall j, (j < k)%nat -> on_boat_at v0_kmh j = false) /\
     classified_at v0_kmh k msg_landed) /\
  (landed v0_kmh = false ->
   missed v0_kmh = true /\
   exists k,
     first_index in_water (snd (bond_trajectory v0_kmh)) = Some k /\
     classified_at v0_kmh k msg_missed).
Proof.
  destruct (jump_cases v0_kmh)
    as [(k & Hb & Hbefore & Hc & Hl & Hm) | (Hall & Hc & Hl & Hm)].
  - split; [|split].
    + split; [intros _; exists k; exact Hb | intros _; exact Hl].
    + intros _. exists k. repeat split; assumption.
    + rewrite Hl. discriminate.
  - split; [|split].
    + split; [rewrite Hl; discriminate|].
      intros [k Hk]. rewrite Hall in Hk. discriminate.
    + rewrite Hl. discriminate.
    + intros _. split; [exact Hm|].
      exists 46%nat. split; [apply first_water_frame|exact Hc].
Qed.

(** C2, as stated, fails at 71 km/h: at the first frame whose height is at
    most the boat's (frame 43) Bond is still short of the boat, and he is on
    it one frame later, so the run shows a landing. *)
Lemma first_frame_rule_fails_at_71 :
  ~ (landed 71 = true <-> spec_landed 71 = true).
Proof.
  assert (Hl : landed 71 = true) by (vm_compute; reflexivity).
  assert (Hs : spec_landed 71 = false) by (vm_compute; reflexivity).
  intros [H _]. rewrite Hs in H. specialize (H Hl). discriminate.
Qed.

End JamesBondFacts.

(* ================================================================== *)
(** * Facts: the time grids of the three scripts *)

Module TimeGrids.
Import NumpyR NumpyRFacts NumpyF.
Local Open Scope R_scope.







End TimeGrids.

(* ================================================================== *)
(** * Facts: the binary64 readings *)

Module B64Facts.
Local Open Scope float_scope.

(** C3, as the code has it.  The two roots come out as the smaller one
    followed by [t_roll2]; [t_roll2] is the larger one and positive, the
    discarded one is negative, and both satisfy the quadratic up to
    rounding: the residual at [t_roll2] is below 1e-15 in magnitude.  It is
    negative there and positive at the next double, so no double does
    better. *)
Theorem t_roll2_larger_positive_root_b64 :
  exists r,
    Ex10B64.sol = [r; Ex10B64.t_roll2] /\
    (r <? Ex10B64.t_roll2) = true /\
    (0 <? Ex10B64.t_roll2) = true /\
    (r <? 0) = true /\
    (abs (Ex10B64.quadratic Ex10B64.t_roll2) <=? 1e-15) = true /\
    (abs (Ex10B64.quadratic r) <=? 1e-14) = true /\
    (Ex10B64.quadratic Ex10B64.t_roll2 <? 0) = true /\
    (0 <? Ex10B64.quadratic (next_up Ex10B64.t_roll2)) = true.
Proof.
  exists (nth 0 Ex10B64.sol nan).
  repeat split; vm_compute; reflexivity.
Qed.

(** C3, as stated, fails in binary64: [t_roll2] does not satisfy the
    quadratic exactly; the residual is -4.44e-16. *)
Lemma t_roll2_residual_is_not_zero :
  ~ ((Ex10B64.quadratic Ex10B64.t_roll2 =? 0) = true).
Proof.
  assert (H : (Ex10B64.quadratic Ex10B64.t_roll2 =? 0) = false)
    by (vm_compute; reflexivity).
  rewrite H. discriminate.
Qed.


End B64Facts.

(* ================================================================== *)
(** * More facts: the kinematics of sheet2/ex10.py *)

Module Ex10Kinematics.
Import NumpyR NumpyRFacts Ex10 Ex10Facts.
Local Open Scope R_scope.

Lemma sqrt_above (a x : R) : 0 <= a -> a * a < x -> a < sqrt x.
Proof.
  intros Ha Hx. rewrite <- (sqrt_square a Ha). apply sqrt_lt_1; nra.
Qed.

Lemma sqrt_below (b x : R) : 0 <= x -> 0 <= b -> x < b * b -> sqrt x < b.
Proof.
  intros Hx Hb Hlt. rewrite <- (sqrt_square b Hb). apply sqrt_lt_1; nra.
Qed.

Lemma g_val : g = 9.81.
Proof. reflexivity. Qed.

Lemma t_roll1_eq : t_roll1 = sqrt (2 / g).
Proof.
  unfold t_roll1. rewrite a_roll_eq. f_equal. unfold h_roll.
  pose proof g_pos. replace 0.5 with (/ 2) by lra. field. lra.
Qed.

Lemma t_fall2_eq : t_fall2 = sqrt (2 / g).
Proof. unfold t_fall2, h_free. f_equal. unfold Rdiv. lra. Qed.

Lemma t_fall1_eq : t_fall1 = sqrt (3 / g).
Proof. unfold t_fall1, h, h_roll. f_equal. unfold Rdiv. lra. Qed.

Lemma t_roll1_bounds : 0.4515 < t_roll1 < 0.4516.
Proof.
  rewrite t_roll1_eq, g_val. split.
  - apply sqrt_above; lra.
  - apply sqrt_below; lra.
Qed.

Lemma t_fall1_bounds : 0.5530 < t_fall1 < 0.5531.
Proof.
  rewrite t_fall1_eq, g_val. split.
  - apply sqrt_above; lra.
  - apply sqrt_below; lra.
Qed.

Lemma t_fall2_bounds : 0.4515 < t_fall2 < 0.4516.
Proof.
  rewrite t_fall2_eq, g_val. split.
  - apply sqrt_above; lra.
  - apply sqrt_below; lra.
Qed.

Lemma sqrt_5g_bounds : 7.0035 < sqrt (5 * g) < 7.0036.
Proof.
  rewrite g_val. split.
  - apply sqrt_above; lra.
  - apply sqrt_below; lra.
Qed.

Lemma v_C_bounds : 4.4294 < v_C < 4.4295.
Proof.
  unfold v_C, h_free. rewrite g_val. split.
  - apply sqrt_above; lra.
  - apply sqrt_below; lra.
Qed.

Lemma v_B_bounds : 3.13 < v_B < 3.14.
Proof.
  unfold v_B, h_roll. rewrite g_val. split.
  - apply sqrt_above; lra.
  - apply sqrt_below; lra.
Qed.

Lemma v_final_bounds : 6.26 < v_final < 6.27.
Proof.
  unfold v_final, h. rewrite g_val. split.
  - apply sqrt_above; lra.
  - apply sqrt_below; lra.
Qed.

Lemma t_roll2_bounds : 0.5247 < t_roll2 < 0.5249.
Proof.
  rewrite t_roll2_eq.
  pose proof sqrt_5g_bounds. pose proof v_C_bounds. pose proof g_val as Hg.
  assert (Hinv : (sqrt (5 * g) - v_C) / (g / 2) * (g / 2)
                 = sqrt (5 * g) - v_C) by (field; lra).
  split; apply Rmult_lt_reg_r with (g / 2); try lra.
Qed.

(** X1: the fall-then-roll path arrives first, so the timeline is as long as
    the roll-then-fall path and its last sample is [T1]. *)
Theorem path2_arrives_first :
  T2 < T1 /\ t_max = T1 /\ last ts 0 = T1.
Proof.
  pose proof t_roll1_bounds. pose proof t_fall1_bounds.
  pose proof t_fall2_bounds. pose proof t_roll2_bounds.
  assert (Hlt : T2 < T1) by (unfold T1, T2; lra).
  assert (Hmax : t_max = T1) by (unfold t_max; apply Rmax_left; lra).
  split; [exact Hlt|]. split; [exact Hmax|].
  unfold ts. rewrite last_is_nth, linspace_length, linspace_last by lia.
  exact Hmax.
Qed.

(** ** Speed of path 1 *)

Lemma speed_path1_phase1 (t : R) : t < t_roll1 -> speed_path1 t = a_roll * t.
Proof.
  intro Ht. unfold speed_path1. destruct (Rlt_dec t t_roll1); [reflexivity|lra].
Qed.

Lemma speed_path1_tail (t : R) : T1 <= t -> speed_path1 t = v_final.
Proof.
  intro Ht. pose proof t_roll1_lt_T1. unfold speed_path1.
  destruct (Rlt_dec t t_roll1); [lra|].
  destruct (Rlt_dec t T1); [lra|reflexivity].
Qed.

Lemma phase2_speed_path1_mono (s t : R) :
  t_roll1 <= s -> s <= t -> phase2_speed_path1 s <= phase2_speed_path1 t.
Proof.
  intros Hs Hst. unfold phase2_speed_path1. cbv zeta.
  pose proof g_pos. apply sqrt_le_1.
  - apply Rplus_le_le_0_compat; apply pow2_ge_0.
  - apply Rplus_le_le_0_compat; apply pow2_ge_0.
  - assert (0 <= g * (s - t_roll1)) by nra.
    assert (g * (s - t_roll1) <= g * (t - t_roll1)) by nra.
    nra.
Qed.

Lemma phase2_speed_path1_ge_v_B (t : R) : v_B <= phase2_speed_path1 t.
Proof.
  unfold phase2_speed_path1. cbv zeta. pose proof v_B_pos.
  rewrite <- (sqrt_square v_B) at 1 by lra.
  apply sqrt_le_1.
  - nra.
  - apply Rplus_le_le_0_compat; apply pow2_ge_0.
  - pose proof (pow2_ge_0 (g * (t - t_roll1))). nra.
Qed.

Lemma roll1_end_speed : a_roll * t_roll1 < 2.22.
Proof.
  rewrite a_roll_eq. pose proof t_roll1_bounds. pose proof g_val. nra.
Qed.

(** X2: on [t >= 0] the speed of path 1 never decreases, and it stays between 0
    and the terminal speed. *)
Theorem speed_path1_monotone (s t : R) :
  0 <= s -> s <= t ->
  0 <= speed_path1 s /\ speed_path1 s <= speed_path1 t /\
  speed_path1 t <= v_final.
Proof.
  intros Hs Hst.
  pose proof t_roll1_lt_T1 as HT. pose proof g_pos as Hg.
  pose proof roll1_end_speed as Hend. pose proof v_B_bounds as HvB.
  pose proof v_final_bounds as Hvf. pose proof a_roll_eq as Ha.
  assert (Htop : forall u, t_roll1 <= u < T1 -> phase2_speed_path1 u <= v_final).
  { intros u Hu. rewrite <- phase2_speed_path1_at_T1.
    apply phase2_speed_path1_mono; lra. }
  assert (Hlow : forall u, 0 <= u -> u < t_roll1 ->
                 0 <= a_roll * u /\ a_roll * u < 2.22).
  { intros u H0 Hu. rewrite Ha in *. split; nra. }
  destruct (Rlt_dec s t_roll1) as [Hs1|Hs1].
  - rewrite (speed_path1_phase1 s Hs1).
    destruct (Hlow s Hs Hs1) as [Hs0 Hs2].
    destruct (Rlt_dec t t_roll1) as [Ht1|Ht1].
    + rewrite (speed_path1_phase1 t Ht1).
      destruct (Hlow t) as [_ Ht2]; [lra|exact Ht1|].
      repeat split; [lra| rewrite Ha; nra | lra].
    + destruct (Rlt_dec t T1) as [Ht2|Ht2].
      * rewrite speed_path1_phase2 by lra.
        pose proof (phase2_speed_path1_ge_v_B t).
        pose proof (Htop t). repeat split; lra.
      * rewrite speed_path1_tail by lra. repeat split; lra.
  - destruct (Rlt_dec s T1) as [Hs2|Hs2].
    + rewrite (speed_path1_phase2 s) by lra.
      pose proof (phase2_speed_path1_ge_v_B s).
      destruct (Rlt_dec t T1) as [Ht2|Ht2].
      * rewrite (speed_path1_phase2 t) by lra.
        pose proof (phase2_speed_path1_mono s t). pose proof (Htop t).
        repeat split; lra.
      * rewrite speed_path1_tail by lra. pose proof (Htop s).
        repeat split; lra.
    + rewrite !speed_path1_tail by lra. repeat split; lra.
Qed.

Lemma speed_path1_monotone_witness :
  0 <= 0 /\ 0 <= T1 /\
  0 <= speed_path1 0 /\ speed_path1 0 <= speed_path1 T1 /\
  speed_path1 T1 <= v_final.
Proof.
  assert (H1 : 0 <= T1)
    by (pose proof t_roll1_lt_T1; pose proof t_roll1_pos; lra).
  split; [lra|]. split; [exact H1|].
  apply (speed_path1_monotone 0 T1); [lra|exact H1].
Defined.

(** X3: the speed of path 1 is not continuous at the end of the roll: the roll
    formula stays below 2.22 m/s, and at [t_roll1] the fall formula starts
    from [v_B], more than 0.9 m/s higher. *)
Theorem speed_path1_jumps_at_t_roll1 (t : R) :
  0 <= t -> t < t_roll1 ->
  speed_path1 t + 0.9 < speed_path1 t_roll1 /\ speed_path1 t_roll1 = v_B.
Proof.
  intros H0 Ht.
  pose proof t_roll1_lt_T1. pose proof roll1_end_speed.
  pose proof v_B_bounds. pose proof g_pos.
  assert (Hb : speed_path1 t_roll1 = v_B).
  { rewrite speed_path1_phase2 by lra.
    unfold phase2_speed_path1. cbv zeta.
    replace (v_B ^ 2 + (g * (t_roll1 - t_roll1)) ^ 2) with (v_B * v_B) by ring.
    apply sqrt_square. lra. }
  split; [|exact Hb].
  rewrite Hb, (speed_path1_phase1 t Ht). rewrite a_roll_eq in *. nra.
Qed.

Lemma speed_path1_jumps_at_t_roll1_witness :
  0 <= 0 /\ 0 < t_roll1 /\
  speed_path1 0 + 0.9 < speed_path1 t_roll1 /\ speed_path1 t_roll1 = v_B.
Proof.
  pose proof t_roll1_pos as Hp.
  split; [lra|]. split; [exact Hp|].
  apply (speed_path1_jumps_at_t_roll1 0); [lra|exact Hp].
Defined.

(** ** Speed of path 2 *)

Lemma fall2_end_speed : g * t_fall2 = v_C.
Proof.
  pose proof g_pos as Hg.
  rewrite t_fall2_eq. unfold v_C, h_free.
  rewrite <- (sqrt_square g) at 1 by lra.
  rewrite <- sqrt_mult_alt by nra.
  f_equal. replace (2 * g * 1.0) with (2 * g) by lra. field. lra.
Qed.

Lemma speed_path2_phase1 (t : R) : t < t_fall2 -> speed_path2 t = g * t.
Proof.
  intro Ht. unfold speed_path2. destruct (Rlt_dec t t_fall2); [reflexivity|lra].
Qed.



(** X5: both speed curves stay inside the speed axis of the plot, which runs from
    0 to [v_final * 1.2]; path 2 does so although it exceeds [v_final]. *)
Theorem speeds_within_axis (t : R) :
  0 <= t ->
  0 <= speed_path1 t <= v_final /\
  0 <= speed_path2 t < v_final * 1.2.
Proof.
  intro H0.
  pose proof g_pos as Hg. pose proof v_final_bounds as Hvf.
  pose proof sqrt_5g_bounds as H5. pose proof t_fall2_lt_T2 as HT2.
  pose proof t_roll1_lt_T1 as HT1. pose proof v_B_bounds as HvB.
  pose proof v_C_bounds as HvC. pose proof roll1_end_speed as Hend1.
  pose proof fall2_end_speed as Hend2.
  split.
  - destruct (Rlt_dec t t_roll1) as [Ht1|Ht1].
    + rewrite speed_path1_phase1 by exact Ht1.
      rewrite a_roll_eq in *. split; nra.
    + destruct (Rlt_dec t T1) as [Ht2|Ht2].
      * rewrite speed_path1_phase2 by lra.
        pose proof (phase2_speed_path1_ge_v_B t).
        pose proof (phase2_speed_path1_mono t T1).
        rewrite phase2_speed_path1_at_T1 in *. lra.
      * rewrite speed_path1_tail by lra. lra.
  - destruct (Rlt_dec t t_fall2) as [Ht1|Ht1].
    + rewrite speed_path2_phase1 by exact Ht1. split; nra.
    + destruct (Rlt_dec t T2) as [Ht2|Ht2].
      * rewrite speed_path2_phase2 by lra.
        pose proof phase2_speed_path2_at_T2_eq as HT.
        unfold phase2_speed_path2 in *. cbv zeta in *.
        rewrite a_roll2_eq in *. split; nra.
      * assert (Hc : speed_path2 t = v_final).
        { unfold speed_path2.
          destruct (Rlt_dec t t_fall2); [lra|].
          destruct (Rlt_dec t T2); [lra|reflexivity]. }
        rewrite Hc. lra.
Qed.

Lemma speeds_within_axis_witness :
  0 <= T2 /\
  0 <= speed_path1 T2 <= v_final /\ 0 <= speed_path2 T2 < v_final * 1.2.
Proof.
  assert (H2 : 0 <= T2)
    by (pose proof t_fall2_lt_T2; pose proof t_fall2_pos; lra).
  split; [exact H2|]. apply (speeds_within_axis T2 H2).
Defined.

(** ** Positions *)

Section Ramp.
(** A coordinate of the schematic positions: it covers [c1] at a constant
    rate during the first phase (of length [tr]), [c2] during the second (of
    length [tf]), and then rests. *)
Variables (tr tf c1 c2 : R) (f : R -> R).
Hypothesis Htr : 0 < tr.
Hypothesis Htf : 0 < tf.
Hypothesis Hf1 : forall u, u < tr -> f u = c1 * (u / tr).
Hypothesis Hf2 : forall u, tr <= u -> u < tr + tf -> f u = c1 + c2 * ((u - tr) / tf).
Hypothesis Hf3 : forall u, tr + tf <= u -> f u = c1 + c2.

Lemma ramp_increment (s t : R) :
  s <= t ->
  exists p q,
    0 <= p <= (t - s) / tr /\ 0 <= q <= (t - s) / tf /\
    f t - f s = c1 * p + c2 * q.
Proof.
  intro Hst.
  assert (Hir : 0 < / tr) by (apply Rinv_0_lt_compat; exact Htr).
  assert (Hif : 0 < / tf) by (apply Rinv_0_lt_compat; exact Htf).
  assert (Hr1 : tr * / tr = 1) by (apply Rinv_r; lra).
  assert (Hq1 : tf * / tf = 1) by (apply Rinv_r; lra).
  unfold Rdiv in *.
  destruct (Rlt_dec s tr) as [Hs1|Hs1].
  - rewrite (Hf1 s Hs1).
    destruct (Rlt_dec t tr) as [Ht1|Ht1].
    + rewrite (Hf1 t Ht1). exists ((t - s) * / tr), 0.
      repeat split; try nra; ring.
    + assert (0 <= (tr - s) * / tr) by nra.
      assert (0 <= (t - tr) * / tr) by nra.
      destruct (Rlt_dec t (tr + tf)) as [Ht2|Ht2].
      * rewrite (Hf2 t) by lra.
        assert (0 <= (t - tr) * / tf) by nra.
        assert (0 <= (tr - s) * / tf) by nra.
        exists (1 - s * / tr), ((t - tr) * / tf).
        repeat split; try nra; ring.
      * rewrite (Hf3 t) by lra.
        assert (0 <= (t - s - tf) * / tf) by nra.
        exists (1 - s * / tr), 1.
        repeat split; try nra; ring.
  - destruct (Rlt_dec s (tr + tf)) as [Hs2|Hs2].
    + rewrite (Hf2 s) by lra.
      destruct (Rlt_dec t (tr + tf)) as [Ht2|Ht2].
      * rewrite (Hf2 t) by lra. exists 0, ((t - s) * / tf).
        repeat split; try nra; ring.
      * rewrite (Hf3 t) by lra.
        assert (0 <= (tr + tf - s) * / tf) by nra.
        assert (0 <= (t - tr - tf) * / tf) by nra.
        exists 0, (1 - (s - tr) * / tf).
        repeat split; try nra; ring.
    + rewrite (Hf3 s), (Hf3 t) by lra. exists 0, 0.
      repeat split; try nra; ring.
Qed.
End Ramp.

Lemma pos_path1_x_ramp :
  (forall u, u < t_roll1 -> fst (pos_path1 u) = 1 * (u / t_roll1)) /\
  (forall u, t_roll1 <= u -> u < t_roll1 + t_fall1 ->
     fst (pos_path1 u) = 1 + 1 * ((u - t_roll1) / t_fall1)) /\
  (forall u, t_roll1 + t_fall1 <= u -> fst (pos_path1 u) = 1 + 1).
Proof.
  pose proof t_fall1_pos.
  repeat split; intros u; intros; unfold pos_path1, T1;
    destruct (Rlt_dec u t_roll1); try lra;
    try (destruct (Rlt_dec u (t_roll1 + t_fall1)); try lra);
    cbv zeta; simpl fst; unfold Rdiv; lra.
Qed.

Lemma pos_path1_y_ramp :
  (forall u, u < t_roll1 -> snd (pos_path1 u) = - h_roll * (u / t_roll1)) /\
  (forall u, t_roll1 <= u -> u < t_roll1 + t_fall1 ->
     snd (pos_path1 u)
     = - h_roll + - (h - h_roll) * ((u - t_roll1) / t_fall1)) /\
  (forall u, t_roll1 + t_fall1 <= u ->
     snd (pos_path1 u) = - h_roll + - (h - h_roll)).
Proof.
  pose proof t_fall1_pos.
  repeat split; intros u; intros; unfold pos_path1, T1;
    destruct (Rlt_dec u t_roll1); try lra;
    try (destruct (Rlt_dec u (t_roll1 + t_fall1)); try lra);
    cbv zeta; simpl snd; ring.
Qed.

Lemma pos_path2_x_ramp :
  (forall u, u < t_fall2 -> fst (pos_path2 u) = 1 * (u / t_fall2)) /\
  (forall u, t_fall2 <= u -> u < t_fall2 + t_roll2 ->
     fst (pos_path2 u) = 1 + 2 * ((u - t_fall2) / t_roll2)) /\
  (forall u, t_fall2 + t_roll2 <= u -> fst (pos_path2 u) = 1 + 2).
Proof.
  pose proof t_roll2_pos.
  repeat split; intros u; intros; unfold pos_path2, T2;
    destruct (Rlt_dec u t_fall2); try lra;
    try (destruct (Rlt_dec u (t_fall2 + t_roll2)); try lra);
    cbv zeta; simpl fst; unfold Rdiv; lra.
Qed.

Lemma pos_path2_y_ramp :
  (forall u, u < t_fall2 -> snd (pos_path2 u) = - h_free * (u / t_fall2)) /\
  (forall u, t_fall2 <= u -> u < t_fall2 + t_roll2 ->
     snd (pos_path2 u)
     = - h_free + - (h - h_free) * ((u - t_fall2) / t_roll2)) /\
  (forall u, t_fall2 + t_roll2 <= u ->
     snd (pos_path2 u) = - h_free + - (h - h_free)).
Proof.
  pose proof t_roll2_pos.
  repeat split; intros u; intros; unfold pos_path2, T2;
    destruct (Rlt_dec u t_fall2); try lra;
    try (destruct (Rlt_dec u (t_fall2 + t_roll2)); try lra);
    cbv zeta; simpl snd; ring.
Qed.

Lemma heights_val : h = 2 /\ h_roll = 1 / 2 /\ h_free = 1.
Proof. unfold h, h_roll, h_free. repeat split; lra. Qed.





(** X8: from the start on, both balls stay between their start point (0, 0)
    and their end point, hence inside the axes of the left plot
    ([0, 4] by [-h - 0.5, 0.5]). *)
Theorem balls_within_axes (t : R) :
  0 <= t ->
  pos_path1 0 = (0, 0) /\ pos_path2 0 = (0, 0) /\
  0 <= fst (pos_path1 t) <= 2 /\ - h <= snd (pos_path1 t) <= 0 /\
  0 <= fst (pos_path2 t) <= 3 /\ - h <= snd (pos_path2 t) <= 0.
Proof.
  intro H0.
  pose proof t_roll1_pos as Hr1. pose proof t_fall2_pos as Hf2.
  pose proof t_roll1_lt_T1 as HT1. pose proof t_fall2_lt_T2 as HT2.
  assert (Hs1 : pos_path1 0 = (0, 0)).
  { unfold pos_path1. destruct (Rlt_dec 0 t_roll1); [|lra].
    f_equal; unfold Rdiv; lra. }
  assert (Hs2 : pos_path2 0 = (0, 0)).
  { unfold pos_path2. destruct (Rlt_dec 0 t_fall2); [|lra].
    cbv zeta. f_equal; unfold Rdiv; lra. }
  assert (He1 : pos_path1 (t + T1) = (2, - h)).
  { unfold pos_path1. destruct (Rlt_dec (t + T1) t_roll1); [lra|].
    destruct (Rlt_dec (t + T1) T1); [lra|reflexivity]. }
  assert (He2 : pos_path2 (t + T2) = (3, - h)).
  { unfold pos_path2. destruct (Rlt_dec (t + T2) t_fall2); [lra|].
    destruct (Rlt_dec (t + T2) T2); [lra|reflexivity]. }
  pose proof t_fall1_pos as Hf1. pose proof t_roll2_pos as Hr2.
  destruct heights_val as (Hh & Hhr & Hhf).
  destruct pos_path1_x_ramp as (X1 & X2 & X3).
  destruct pos_path1_y_ramp as (Y1 & Y2 & Y3).
  destruct pos_path2_x_ramp as (U1 & U2 & U3).
  destruct pos_path2_y_ramp as (V1 & V2 & V3).
  pose proof (fun a b Hab =>
    ramp_increment t_roll1 t_fall1 1 1 (fun u => fst (pos_path1 u))
      Hr1 Hf1 X1 X2 X3 a b Hab) as IX.
  pose proof (fun a b Hab =>
    ramp_increment t_roll1 t_fall1 (- h_roll) (- (h - h_roll))
      (fun u => snd (pos_path1 u)) Hr1 Hf1 Y1 Y2 Y3 a b Hab) as IY.
  pose proof (fun a b Hab =>
    ramp_increment t_fall2 t_roll2 1 2 (fun u => fst (pos_path2 u))
      Hf2 Hr2 U1 U2 U3 a b Hab) as IU.
  pose proof (fun a b Hab =>
    ramp_increment t_fall2 t_roll2 (- h_free) (- (h - h_free))
      (fun u => snd (pos_path2 u)) Hf2 Hr2 V1 V2 V3 a b Hab) as IV.
  cbv beta in IX, IY, IU, IV.
  destruct (IX 0 t H0) as (p1 & q1 & P1 & Q1 & A1).
  destruct (IX t (t + T1)) as (p2 & q2 & P2 & Q2 & A2); [lra|].
  destruct (IY 0 t H0) as (p3 & q3 & P3 & Q3 & B1).
  destruct (IY t (t + T1)) as (p4 & q4 & P4 & Q4 & B2); [lra|].
  destruct (IU 0 t H0) as (p5 & q5 & P5 & Q5 & C1).
  destruct (IU t (t + T2)) as (p6 & q6 & P6 & Q6 & C2); [lra|].
  destruct (IV 0 t H0) as (p7 & q7 & P7 & Q7 & D1).
  destruct (IV t (t + T2)) as (p8 & q8 & P8 & Q8 & D2); [lra|].
  rewrite Hs1 in A1, B1. rewrite He1 in A2, B2.
  rewrite Hs2 in C1, D1. rewrite He2 in C2, D2.
  simpl fst in *. simpl snd in *. rewrite Hh, Hhr, Hhf in *.
  split; [exact Hs1|]. split; [exact Hs2|].
  repeat split; nra.
Qed.

Lemma balls_within_axes_witness :
  0 <= 1 /\
  0 <= fst (pos_path1 1) <= 2 /\ - h <= snd (pos_path1 1) <= 0 /\
  0 <= fst (pos_path2 1) <= 3 /\ - h <= snd (pos_path2 1) <= 0.
Proof.
  assert (H : 0 <= 1) by lra.
  split; [exact H|].
  destruct (balls_within_axes 1 H) as (_ & _ & A). exact A.
Defined.

(** ** The frame callback and its history buffers *)

Lemma ts_length : List.length ts = 300%nat.
Proof. unfold ts. apply linspace_length. Qed.

Lemma update_in_range (frame : nat) (d : display) :
  (frame < 300)%nat ->
  exists d',
    update frame d = Some d' /\
    t_data d' = t_data d ++ [nth frame ts 0] /\
    v1_data d' = v1_data d ++ [speed_path1 (nth frame ts 0)] /\
    v2_data d' = v2_data d ++ [speed_path2 (nth frame ts 0)] /\
    ball1 d' = ([fst (pos_path1 (nth frame ts 0))],
                [snd (pos_path1 (nth frame ts 0))]) /\
    ball2 d' = ([fst (pos_path2 (nth frame ts 0))],
                [snd (pos_path2 (nth frame ts 0))]).
Proof.
  intro Hk. unfold update.
  destruct (nth_error ts frame) as [t|] eqn:E;
    [|apply nth_error_None in E; rewrite ts_length in E; lia].
  rewrite (nth_error_nth ts frame 0 E).
  destruct (pos_path1 t) as [x1 y1]. destruct (pos_path2 t) as [x2 y2].
  eexists. split; [reflexivity|]. repeat split.
Qed.

Lemma update_out_of_range (frame : nat) (d : display) :
  update frame d = None <-> (300 <= frame)%nat.
Proof.
  split.
  - intro Hu. destruct (Nat.lt_ge_cases frame 300) as [Hlt|Hge]; [|exact Hge].
    destruct (update_in_range frame d Hlt) as (d' & Hd' & _). congruence.
  - intro Hge. unfold update.
    assert (E : nth_error ts frame = None)
      by (apply nth_error_None; rewrite ts_length; exact Hge).
    rewrite E. reflexivity.
Qed.

Lemma play_in_range (frames : list nat) :
  Forall (fun k => (k < 300)%nat) frames ->
  forall d, exists d',
    play frames d = Some d' /\
    t_data d' = t_data d ++ map (fun k => nth k ts 0) frames /\
    v1_data d' = v1_data d ++ map (fun k => speed_path1 (nth k ts 0)) frames /\
    v2_data d' = v2_data d ++ map (fun k => speed_path2 (nth k ts 0)) frames.
Proof.
  induction 1 as [|frame rest Hk _ IH]; intro d.
  - exists d. simpl. rewrite !app_nil_r. repeat split.
  - destruct (update_in_range frame d Hk) as (d1 & Hu & Ht & H1 & H2 & _).
    destruct (IH d1) as (d2 & Hp & Ht2 & H12 & H22).
    exists d2. cbn [play map]. rewrite Hu.
    rewrite Ht2, H12, H22, Ht, H1, H2, <- !app_assoc.
    repeat split; assumption.
Qed.

Lemma map_nth_seq (l : list R) :
  map (fun k => nth k l 0) (seq 0 (List.length l)) = l.
Proof.
  induction l as [|x tl IH]; [reflexivity|].
  cbn [List.length seq map nth]. f_equal.
  rewrite <- seq_shift, map_map. exact IH.
Qed.

(** X9: the history buffers are append-only.  Whatever frames the callback is
    given, and in whatever order, each in-range frame appends its instant and
    the two speeds at it behind what the buffers held, and nothing ever
    clears them; the run fails (with [IndexError]) exactly when some frame is
    past the grid.  Playing the grid a second time, as the animation does
    when it repeats, leaves the grid twice in [t_data]. *)
Theorem history_is_append_only :
  (forall frames d,
     Forall (fun k => (k < 300)%nat) frames ->
     exists d',
       play frames d = Some d' /\
       t_data d' = t_data d ++ map (fun k => nth k ts 0) frames /\
       v1_data d' = v1_data d ++ map (fun k => speed_path1 (nth k ts 0)) frames /\
       v2_data d' = v2_data d ++ map (fun k => speed_path2 (nth k ts 0)) frames) /\
  (forall frames d,
     play frames d = None <-> Exists (fun k => (300 <= k)%nat) frames) /\
  (exists d,
     play (seq 0 300 ++ seq 0 300) init_display = Some d /\
     t_data d = ts ++ ts /\
     v1_data d = map speed_path1 ts ++ map speed_path1 ts).
Proof.
  split; [|split].
  - intros frames d Hall. apply play_in_range. exact Hall.
  - intros frames. induction frames as [|frame rest IH]; intro d.
    + simpl. split; [discriminate|]. intro H. inversion H.
    + cbn [play]. rewrite Exists_cons.
      destruct (update frame d) as [d1|] eqn:E.
      * rewrite IH. split; [intro H; right; exact H|].
        intros [H|H]; [|exact H].
        apply update_out_of_range with (d := d) in H. congruence.
      * split; [|reflexivity]. intros _. left.
        apply (update_out_of_range frame d). exact E.
  - destruct (play_in_range (seq 0 300 ++ seq 0 300)) with (d := init_display)
      as (d & Hp & Ht & H1 & _).
    { apply Forall_app. split; apply Forall_forall; intros k Hk;
        apply in_seq in Hk; lia. }
    exists d. split; [exact Hp|].
    pose proof (map_nth_seq ts) as Hm. rewrite ts_length in Hm.
    split.
    + rewrite Ht, map_app, Hm. reflexivity.
    + rewrite H1, map_app.
      rewrite <- (map_map (fun k => nth k ts 0) speed_path1), Hm.
      reflexivity.
Qed.

(** X10: the first frame draws both balls at the start point A = (0, 0); the
    last frame of the grid draws them at their end points and records the
    terminal speed for both paths. *)
Theorem first_frame_at_A_last_frame_at_D (d : display) :
  (exists d',
     update 0 d = Some d' /\
     ball1 d' = ([0], [0]) /\ ball2 d' = ([0], [0]) /\
     v1_data d' = v1_data d ++ [0] /\ v2_data d' = v2_data d ++ [0]) /\
  (exists d',
     update 299 d = Some d' /\
     ball1 d' = ([2], [- h]) /\ ball2 d' = ([3], [- h]) /\
     v1_data d' = v1_data d ++ [v_final] /\
     v2_data d' = v2_data d ++ [v_final]).
Proof.
  pose proof t_roll1_pos as Hr1. pose proof t_fall2_pos as Hf2.
  pose proof t_roll1_lt_T1 as HT1. pose proof t_fall2_lt_T2 as HT2.
  pose proof t_roll1_bounds. pose proof t_fall1_bounds.
  pose proof t_fall2_bounds. pose proof t_roll2_bounds.
  assert (Hfirst : nth 0 ts 0 = 0) by (unfold ts; apply linspace_first; lia).
  assert (Hlast : nth 299 ts 0 = T1).
  { unfold ts. pose proof (linspace_last 0 t_max 300) as HL.
    change (300 - 1)%nat with 299%nat in HL. rewrite HL by lia.
    unfold t_max. apply Rmax_left. unfold T1, T2. lra. }
  assert (H21 : T2 <= T1) by (unfold T1, T2; lra).
  split.
  - destruct (update_in_range 0 d) as (d' & Hu & _ & Hv1 & Hv2 & B1 & B2); [lia|].
    rewrite Hfirst in *. exists d'.
    assert (P1 : pos_path1 0 = (0, 0)).
    { unfold pos_path1. destruct (Rlt_dec 0 t_roll1); [|lra].
      f_equal; unfold Rdiv; lra. }
    assert (P2 : pos_path2 0 = (0, 0)).
    { unfold pos_path2. destruct (Rlt_dec 0 t_fall2); [|lra].
      cbv zeta. f_equal; unfold Rdiv; lra. }
    rewrite P1 in B1. rewrite P2 in B2.
    rewrite speed_path1_phase1 in Hv1 by lra.
    rewrite speed_path2_phase1 in Hv2 by lra.
    rewrite Rmult_0_r in Hv1, Hv2.
    repeat split; assumption.
  - destruct (update_in_range 299 d) as (d' & Hu & _ & Hv1 & Hv2 & B1 & B2);
      [lia|].
    rewrite Hlast in *. exists d'.
    assert (P1 : pos_path1 T1 = (2, - h)).
    { unfold pos_path1. destruct (Rlt_dec T1 t_roll1); [lra|].
      destruct (Rlt_dec T1 T1); [lra|reflexivity]. }
    assert (P2 : pos_path2 T1 = (3, - h)).
    { unfold pos_path2. destruct (Rlt_dec T1 t_fall2); [lra|].
      destruct (Rlt_dec T1 T2); [lra|reflexivity]. }
    assert (S2 : speed_path2 T1 = v_final).
    { unfold speed_path2. destruct (Rlt_dec T1 t_fall2); [lra|].
      destruct (Rlt_dec T1 T2); [lra|reflexivity]. }
    rewrite P1 in B1. rewrite P2 in B2.
    rewrite speed_path1_tail in Hv1 by lra. rewrite S2 in Hv2.
    repeat split; assumption.
Qed.

End Ex10Kinematics.

(* ================================================================== *)
(** * More facts: the run of sheet2/ex10_james_bond.py *)

Module JamesBondRun.
Import NumpyF JamesBond JamesBondFacts.
Local Open Scope float_scope.

(** What an in-flight frame draws. *)
Lemma update_draws (t_vals x_vals y_vals : list float)
  (frame : nat) (d : display) (t x y : float) :
  done d = false ->
  frame_sample t_vals x_vals y_vals frame = Some (t, x, y) ->
  exists d',
    update t_vals x_vals y_vals frame d = Some d' /\
    bond_dot d' = ([x], [y]) /\
    traj_line d' = (firstn frame x_vals, firstn frame y_vals) /\
    boat_patch d' = (boat_x0 + boat_speed * t, 0).
Proof.
  intros Hd Hs. unfold frame_sample in Hs. unfold update. rewrite Hd.
  destruct (nth_error t_vals frame) as [t0|]; [|discriminate].
  destruct (nth_error x_vals frame) as [x0|]; [|discriminate].
  destruct (nth_error y_vals frame) as [y0|]; [|discriminate].
  injection Hs as -> -> ->.
  unfold boat_position. cbv zeta iota beta.
  destruct (((boat_x0 + boat_speed * t <=? x)
             && (x <=? boat_x0 + boat_speed * t + boat_length))
            && ((0 <=? y) && (y <=? boat_height))).
  - eexists. repeat split.
  - destruct (y <=? 0); eexists; repeat split.
Qed.

(** X11: [update] raises [IndexError] exactly on an in-flight display and a frame
    number past the end of one of the three arrays; a resolved display never
    raises, whatever the frame number. *)
Theorem update_index_error
  (t_vals x_vals y_vals : list float) (frame : nat) (d : display) :
  update t_vals x_vals y_vals frame d = None <->
  done d = false /\
  (List.length t_vals <= frame \/ List.length x_vals <= frame \/
   List.length y_vals <= frame)%nat.
Proof.
  unfold update. destruct (done d).
  - split; [discriminate|]. intros [H _]. discriminate.
  - destruct (nth_error t_vals frame) as [t|] eqn:Et.
    + destruct (nth_error x_vals frame) as [x|] eqn:Ex.
      * destruct (nth_error y_vals frame) as [y|] eqn:Ey.
        -- assert (Ht : (frame < List.length t_vals)%nat)
             by (apply nth_error_Some; congruence).
           assert (Hx : (frame < List.length x_vals)%nat)
             by (apply nth_error_Some; congruence).
           assert (Hy : (frame < List.length y_vals)%nat)
             by (apply nth_error_Some; congruence).
           unfold boat_position. cbv zeta iota beta.
           split.
           ++ destruct (((boat_x0 + boat_speed * t <=? x)
                         && (x <=? boat_x0 + boat_speed * t + boat_length))
                        && ((0 <=? y) && (y <=? boat_height)));
                [discriminate|]. destruct (y <=? 0); discriminate.
           ++ intros [_ H]. lia.
        -- apply nth_error_None in Ey. split; [|reflexivity].
           intros _. split; [reflexivity|]. right. right. exact Ey.
      * apply nth_error_None in Ex. split; [|reflexivity].
        intros _. split; [reflexivity|]. right. left. exact Ex.
    + apply nth_error_None in Et. split; [|reflexivity].
      intros _. split; [reflexivity|]. left. exact Et.
Qed.

(** The frame that resolves the jump: the first one on which Bond is inside
    the boat's box, else frame 46. *)
Lemma resolving_frame (v0 : float) :
  exists k,
    (43 <= k <= 46)%nat /\
    (forall j, (j < k)%nat -> on_boat_at v0 j = false) /\
    (on_boat_at v0 k = true \/ (on_boat_at v0 k = false /\ k = 46%nat)).
Proof.
  destruct (jump_cases v0)
    as [(k & Hb & Hbefore & _) | (Hall & _)].
  - exists k. split; [|split; [exact Hbefore|left; exact Hb]].
    destruct (Nat.lt_ge_cases k 43) as [Hlo|Hlo].
    { rewrite on_boat_at_high in Hb by exact Hlo. discriminate. }
    destruct (Nat.lt_ge_cases k 46) as [Hhi|Hhi]; [lia|].
    rewrite on_boat_at_low in Hb by exact Hhi. discriminate.
  - exists 46%nat. split; [lia|]. split; [intros j _; apply Hall|].
    right. split; [apply Hall|reflexivity].
Qed.

(** X12: whatever the speed (a NaN or an infinity included), the run raises no
    error and ends resolved: the jump is decided at one of the frames 43 to
    46, and exactly one of the two texts is shown at the end. *)
Theorem every_jump_resolves (v0_kmh : float) :
  animate_jump v0_kmh <> None /\
  landed v0_kmh = negb (missed v0_kmh) /\
  exists k,
    (43 <= k <= 46)%nat /\
    (classified_at v0_kmh k msg_landed \/ classified_at v0_kmh k msg_missed).
Proof.
  destruct (resolving_frame v0_kmh) as (k & Hk & Hbefore & Hcase).
  assert (Hrun : landed v0_kmh = true \/ missed v0_kmh = true ->
                 animate_jump v0_kmh <> None).
  { unfold landed, missed. destruct (animate_jump v0_kmh);
      [discriminate|]. intros [H|H]; discriminate. }
  destruct Hcase as [Hb | [Hb ->]].
  - destruct (resolved_by v0_kmh k true) as (Hc & Hl & Hm);
      [lia | exact Hbefore | exact Hb | discriminate |].
    split; [apply Hrun; left; exact Hl|].
    split; [rewrite Hl, Hm; reflexivity|].
    exists k. split; [exact Hk|left; exact Hc].
  - destruct (resolved_by v0_kmh 46 false) as (Hc & Hl & Hm);
      [lia | exact Hbefore | exact Hb | reflexivity |].
    split; [apply Hrun; right; exact Hm|].
    split; [rewrite Hl, Hm; reflexivity|].
    exists 46%nat. split; [lia|right; exact Hc].
Qed.

(** X13: the display the animation ends with is the one drawn at the resolving
    frame [k]: the marker at the sample of frame [k], the trajectory line
    holding the [k] samples before it (not the marker's own), the boat where
    it was at that instant, and the text by the first stop condition. *)
Theorem final_display_is_resolving_frame (v0_kmh : float) :
  exists k t x y d,
    (43 <= k <= 46)%nat /\
    sample v0_kmh k = Some (t, x, y) /\
    animate_jump v0_kmh = Some d /\
    after_frames v0_kmh (S k) = Some d /\
    bond_dot d = ([x], [y]) /\
    traj_line d = (firstn k (map (x_at v0_kmh) t_grid),
                   firstn k (map y_at t_grid)) /\
    boat_patch d = (boat_x0 + boat_speed * t, 0) /\
    done d = true /\
    status_text d = (if on_boat t x y then msg_landed else msg_missed).
Proof.
  destruct (resolving_frame v0_kmh) as (k & Hk & Hbefore & Hcase).
  destruct (grid_instant k) as [t Ht]; [lia|].
  pose proof (sample_eq v0_kmh k t Ht) as Hs.
  assert (Hstop : on_boat t (x_at v0_kmh t) (y_at t) || in_water (y_at t)
                  = true).
  { destruct Hcase as [Hb | [_ ->]].
    - unfold on_boat_at in Hb. rewrite Hs in Hb. rewrite Hb. reflexivity.
    - destruct (height_classes 46 t Ht) as [_ ->]. apply orb_true_r. }
  exists k, t, (x_at v0_kmh t), (y_at t).
  pose proof Hs as Hs'. unfold sample in Hs'.
  rewrite bond_trajectory_eq in Hs'.
  destruct (play_resolved t_grid (map (x_at v0_kmh) t_grid) (map y_at t_grid)
              100 k init t (x_at v0_kmh t) (y_at t))
    as (d1 & d2 & Hp1 & Hd1 & Hp2 & Hd2 & Hmsg & Hend);
    [lia | reflexivity | | exact Hs' | exact Hstop |].
  { intros j Hj. apply flying_frame; [lia|]. apply Hbefore. exact Hj. }
  destruct (update_draws t_grid (map (x_at v0_kmh) t_grid) (map y_at t_grid)
              k d1 t (x_at v0_kmh t) (y_at t) Hd1 Hs')
    as (d2' & Hu & Hdot & Hline & Hboat).
  assert (Hsame : d2' = d2).
  { rewrite seq_S, play_app, Hp1 in Hp2. simpl in Hp2. rewrite Hu in Hp2.
    congruence. }
  subst d2'. exists d2.
  split; [exact Hk|]. split; [exact Hs|].
  split; [unfold animate_jump; rewrite bond_trajectory_eq, t_grid_length;
          exact Hend|].
  split; [unfold after_frames; rewrite bond_trajectory_eq; exact Hp2|].
  repeat split; assumption.
Qed.

Lemma first_low_frame (v0 : float) :
  first_index (fun y => y <=? boat_height) (snd (bond_trajectory v0))
  = Some 43%nat.
Proof. vm_compute. reflexivity. Qed.

(** X14: the rule "within the span at the first frame at or below the boat's
    top" is sufficient for a landing, though not necessary. *)
Theorem first_frame_rule_is_sufficient (v0_kmh : float) :
  spec_landed v0_kmh = true -> landed v0_kmh = true.
Proof.
  intro Hspec.
  assert (H43 : on_boat_at v0_kmh 43 = true).
  { unfold spec_landed in Hspec.
    pose proof (first_low_frame v0_kmh) as Hf.
    rewrite bond_trajectory_eq in Hspec, Hf. simpl snd in Hf.
    rewrite Hf in Hspec.
    rewrite on_boat_at_eq, Hspec. reflexivity. }
  destruct (jump_cases v0_kmh) as [(_ & _ & _ & _ & Hl & _) | (Hall & _)].
  - exact Hl.
  - rewrite Hall in H43. discriminate.
Qed.

Lemma first_frame_rule_is_sufficient_witness :
  spec_landed 80 = true /\ landed 80 = true.
Proof.
  assert (H : spec_landed 80 = true) by (vm_compute; reflexivity).
  split; [exact H|]. apply (first_frame_rule_is_sufficient 80 H).
Defined.

(** X15: the three arrays of [bond_trajectory] have 100 cells each, whatever the
    speed; the times and the heights do not depend on the speed at all, and
    the heights start at the stage height and fall from every frame to every
    later one. *)
Theorem trajectory_arrays (v0_kmh : float) :
  let '(t, x, y) := bond_trajectory v0_kmh in
  List.length t = 100%nat /\ List.length x = 100%nat /\
  List.length y = 100%nat /\
  t = fst (fst (bond_trajectory 0)) /\ y = snd (bond_trajectory 0) /\
  nth 0 y nan = stage_height /\
  (forall i j, (i < j < 100)%nat -> (nth j y nan <? nth i y nan) = true).
Proof.
  rewrite bond_trajectory_eq.
  split; [apply t_grid_length|].
  split; [rewrite length_map; apply t_grid_length|].
  split; [rewrite length_map; apply t_grid_length|].
  split; [reflexivity|]. split; [reflexivity|].
  split; [vm_compute; reflexivity|].
  intros i j [Hij Hj].
  assert (Hall : forallb (fun a =>
                    forallb (fun b => nth b (map y_at t_grid) nan
                                      <? nth a (map y_at t_grid) nan)
                            (seq (S a) (100 - S a)))
                   (seq 0 100) = true)
    by (vm_compute; reflexivity).
  rewrite forallb_forall in Hall.
  assert (Hi : forallb (fun b => nth b (map y_at t_grid) nan
                                 <? nth i (map y_at t_grid) nan)
                       (seq (S i) (100 - S i)) = true)
    by (apply Hall, in_seq; lia).
  rewrite forallb_forall in Hi. apply Hi, in_seq. lia.
Qed.

End JamesBondRun.

(* ================================================================== *)
(** * More facts: the orbits of sheet3/ex14.py *)

Module Ex14Orbits.
Import NumpyR NumpyRFacts Ex14 Ex14Facts.
Local Open Scope R_scope.











Lemma cube_of_close_factor : Rpower 4 (-1 / 3) ^ 3 = / 2 * / 2.
Proof.
  rewrite <- Rpower_pow by (unfold Rpower; apply exp_pos).
  rewrite Rpower_mult.
  replace (-1 / 3 * INR 3) with (- (1)) by (simpl; lra).
  rewrite Rpower_Ropp, Rpower_1 by lra. lra.
Qed.











Lemma earth_inside_close_orbit : R_earth_real < r_close_real.
Proof.
  pose proof GM_pos as HG. pose proof PI_RGT_0 as Hpi. pose proof PI_4 as H4.
  pose proof r_close_real_pos as Hc.
  destruct (Rlt_le_dec R_earth_real r_close_real) as [Hlt|Hle]; [exact Hlt|].
  exfalso.
  assert (Hcube : r_close_real ^ 3 <= R_earth_real ^ 3)
    by (apply pow_incr; lra).
  assert (Hval : r_close_real ^ 3 = / 2 * / 2 * (GM * (T_earth / (2 * PI)) ^ 2)).
  { unfold r_close_real.
    replace ((Rpower 4 (-1 / 3) * r_geo_real) ^ 3)
      with (Rpower 4 (-1 / 3) ^ 3 * r_geo_real ^ 3) by ring.
    rewrite cube_of_close_factor, r_geo_real_cubed. reflexivity. }
  assert (Hu : 10800 <= T_earth / (2 * PI)).
  { rewrite T_earth_eq. apply Rmult_le_reg_r with (2 * PI); [lra|].
    unfold Rdiv. rewrite Rmult_assoc, Rinv_l by lra. lra. }
  assert (Hu2 : 10800 * 10800 <= (T_earth / (2 * PI)) ^ 2) by nra.
  assert (HGM : 3.9e14 < GM) by (unfold GM, G, M_earth; lra).
  assert (HR : R_earth_real ^ 3 < 3e20)
    by (unfold R_earth_real; lra).
  assert (Hbig : 3.9e14 * (10800 * 10800) <= GM * (T_earth / (2 * PI)) ^ 2)
    by nra.
  rewrite Hval in Hcube. lra.
Qed.

(** X22: what the plot shows: the Earth's disc has radius [R_earth] after
    scaling, the three orbits lie outside it in the order close, geostationary,
    far, and the far one is inside the axes, which reach to [1.5 * r_far]. *)
Theorem orbits_outside_earth_inside_axes :
  R_earth_real * scale = R_earth /\
  R_earth < r_close /\ r_close < r_geo /\ r_geo < r_far /\
  r_far < 1.5 * r_far.
Proof.
  pose proof earth_inside_close_orbit as He.
  pose proof orbits_ordered as [Hcg Hgf].
  assert (HR : 0 < R_earth_real) by (unfold R_earth_real; lra).
  assert (Hs : 0 < scale).
  { unfold scale, R_earth. apply Rdiv_lt_0_compat; lra. }
  assert (Hscale : R_earth_real * scale = R_earth).
  { unfold scale. field. lra. }
  unfold r_close, r_geo, r_far.
  split; [exact Hscale|]. rewrite <- Hscale.
  repeat split; nra.
Qed.





End Ex14Orbits.
